(** * clay_clean: contact-list cleaning and deduplication

    A shallow embedding of [clay.py] (name normaliser, e-mail validator,
    CSV cleaning pipeline) and [dedupe.py] (deduplicator), and the
    properties of the specification checked against it.

    Conventions of the embedding:
    - a Python [str] is a list of Unicode code points ([pystr]);
    - Python values that flow through the code (CSV cells, decoded JSON,
      return values) are [pyval];
    - a Python [float] is a primitive binary64 [float];
    - a call that may raise returns a [result];
    - the interpreter's limit on the depth of calls is the room it
      leaves for the validator to call itself, a number of the runtime;
    - console output ([print]) is not modelled. *)

From Stdlib Require Import ZArith NArith List String Ascii Bool Lia.
From Stdlib Require Import DecimalString.
From Stdlib Require Import PrimFloat SpecFloat.
From Stdlib Require FloatOps.
From stdpp Require Import base tactics option list countable gmap sets.

Set Warnings "-register-all,-inexact-float".
Local Open Scope N_scope.

(* ===================================================================== *)
(** * Python strings *)
(* ===================================================================== *)

Module Str.

(** A Unicode code point. *)
Definition char := N.

(** A Python [str]. *)
Definition pystr := list char.

(** An ASCII literal as a [pystr]. *)
Definition str (s : string) : pystr :=
  map N_of_ascii (list_ascii_of_string s).

Definition squote : char := 39.   (* ' *)
Definition dquote : char := 34.   (* the straight double quote *)

Definition eqb (a b : pystr) : bool := bool_decide (a = b).

(** [str.isspace] on one code point (CPython's [_PyUnicode_IsWhitespace]). *)
Definition isspace (c : char) : bool :=
  ((9 <=? c) && (c <=? 13)) || ((28 <=? c) && (c <=? 32))
  || (c =? 133) || (c =? 160) || (c =? 5760)
  || ((8192 <=? c) && (c <=? 8202))
  || (c =? 8232) || (c =? 8233) || (c =? 8239) || (c =? 8287)
  || (c =? 12288).

Fixpoint lstrip (s : pystr) : pystr :=
  match s with
  | c :: t => if isspace c then lstrip t else s
  | [] => []
  end.

Definition rstrip (s : pystr) : pystr := rev (lstrip (rev s)).

(** [s.strip()] *)
Definition strip (s : pystr) : pystr := rstrip (lstrip s).

(** [s.split()]: the maximal runs of non-whitespace, in order.
    [cur] is the current run, reversed. *)
Fixpoint split_from (cur : pystr) (s : pystr) : list pystr :=
  match s with
  | [] => match cur with [] => [] | _ => [rev cur] end
  | c :: t =>
      if isspace c
      then match cur with
           | [] => split_from [] t
           | _ => rev cur :: split_from [] t
           end
      else split_from (c :: cur) t
  end.

Definition split (s : pystr) : list pystr := split_from [] s.

Definition is_upper (c : char) : bool := (65 <=? c) && (c <=? 90).
Definition is_lower (c : char) : bool := (97 <=? c) && (c <=? 122).
Definition is_letter (c : char) : bool := is_upper c || is_lower c.
Definition is_ascii (c : char) : bool := c <? 128.

Definition upper (c : char) : char := if is_lower c then c - 32 else c.
Definition lower (c : char) : char := if is_upper c then c + 32 else c.

(** [s.capitalize()] on an all-ASCII string. *)
Definition capitalize_ascii (s : pystr) : pystr :=
  match s with
  | [] => []
  | c :: t => upper c :: map lower t
  end.

(** [str(z)] for a Python [int]. *)
Definition of_Z (z : Z) : pystr := str (NilZero.string_of_int (Z.to_int z)).

End Str.
Export Str.

(* ===================================================================== *)
(** * Python values, exceptions *)
(* ===================================================================== *)

(** The values the two scripts handle: CSV cells as [pandas.read_csv]
    yields them ([PStr], [PInt], [PBool], [PFloat], with NaN for a missing
    cell), decoded JSON ([PNone], [PList], [PDict] in addition), and what the
    functions return.  A [dict] keeps its items in insertion order; lookup
    takes the first item with the key. *)
Inductive pyval :=
| PNone
| PBool (b : bool)
| PInt (z : Z)
| PFloat (f : float)
| PStr (s : pystr)
| PList (l : list pyval)
| PDict (d : list (pystr * pyval)).

Inductive exn :=
| IndexError | KeyError | ValueError | TypeError | AttributeError
| OverflowError | RequestException.

Inductive result (A : Type) :=
| Ok (a : A)
| Raise (e : exn).
Arguments Ok {A} a.
Arguments Raise {A} e.

(** Sequencing: an exception leaves the rest of the block unexecuted.
    Written [x ← r; k] below. *)
#[global] Instance result_ret : MRet result := fun A a => Ok a.
#[global] Instance result_bind : MBind result := fun A B k r =>
  match r with
  | Ok a => k a
  | Raise e => Raise e
  end.

(** The parts of the Python runtime that the scripts call and that are
    kept abstract: parsing and printing of floats, [str] of containers,
    Unicode case mapping outside ASCII, and the room the interpreter's
    limit on the depth of calls leaves. *)
Record Runtime := {
  (** [float(s)] for a [str]; [None] is [ValueError]. *)
  float_of_str : pystr -> option float;
  (** [str(f)] for a [float]. *)
  str_of_float : float -> pystr;
  (** [str(v)] for a [list] or a [dict]. *)
  str_of_container : pyval -> pystr;
  (** [s.capitalize()] for a string with a non-ASCII character. *)
  capitalize_unicode : pystr -> pystr;
  (** The number of calls of [validate_email] that fit one inside the
      other, below the call [process_csv] makes, before the interpreter
      raises RecursionError ([sys.getrecursionlimit()] is 1000 and the
      scripts do not change it, so the room is below 1000). *)
  recursion_room : nat;
}.

(** A runtime for running examples whose inputs are ASCII text and
    carry no float to parse or print.  Its room for nested calls stands
    for that of an interpreter with the default limit; the examples give
    the same results for any room from 3 to 999. *)
Definition ascii_runtime : Runtime := {|
  float_of_str := fun _ => None;
  str_of_float := fun _ => [];
  str_of_container := fun _ => [];
  capitalize_unicode := fun s => s;
  recursion_room := 960;
|}.

(* ===================================================================== *)
(** * Regular expressions ([re]) *)
(* ===================================================================== *)

Module Re.

(** The fragment of Python's regular expressions the scripts use. *)
Inductive regex :=
| Eps
| Cls (p : char -> bool)          (* one character of a class *)
| Cat (r1 r2 : regex)             (* r1 r2 *)
| Alt (r1 r2 : regex)             (* r1|r2, left first *)
| Opt (r : regex)                 (* r?, greedy *)
| Upto (n : nat) (r : regex)      (* (?:r){0,n}, greedy *)
| Many1 (p : char -> bool)        (* [class]+, greedy *)
| Grp (i : nat) (r : regex)       (* capturing group number i *)
| Bol                             (* ^ *)
| Eol.                            (* $ *)

(** The matcher's state: the text before the position (reversed), the
    text from the position on, and the groups captured so far. *)
Record mstate := MState {
  before : pystr;
  rest : pystr;
  caps : list (nat * pystr);
}.

Definition set_group (i : nat) (from to : mstate) : mstate :=
  let n := (length (rest from) - length (rest to))%nat in
  MState (before to) (rest to) ((i, take n (rest from)) :: caps to).

(** [[p]*] greedy: take the longest run first, give characters back one at
    a time while the continuation fails. *)
Fixpoint many (p : char -> bool) (bef rst : pystr) (cs : list (nat * pystr))
    (k : mstate -> option mstate) : option mstate :=
  match rst with
  | c :: t =>
      if p c
      then match many p (c :: bef) t cs k with
           | Some m => Some m
           | None => k (MState bef rst cs)
           end
      else k (MState bef rst cs)
  | [] => k (MState bef rst cs)
  end.

(** Backtracking matcher in continuation-passing style: the first
    successful path in the order Python's [re] tries them. *)
Fixpoint run (r : regex) (st : mstate) (k : mstate -> option mstate)
    {struct r} : option mstate :=
  match r with
  | Eps => k st
  | Cls p =>
      match rest st with
      | c :: t => if p c then k (MState (c :: before st) t (caps st)) else None
      | [] => None
      end
  | Cat r1 r2 => run r1 st (fun st' => run r2 st' k)
  | Alt r1 r2 =>
      match run r1 st k with
      | Some m => Some m
      | None => run r2 st k
      end
  | Opt r1 =>
      match run r1 st k with
      | Some m => Some m
      | None => k st
      end
  | Upto n r1 =>
      (fix upto (n : nat) (st : mstate) (k : mstate -> option mstate)
           {struct n} : option mstate :=
         match n with
         | O => k st
         | S n' =>
             match run r1 st (fun st' => upto n' st' k) with
             | Some m => Some m
             | None => k st
             end
         end) n st k
  | Many1 p =>
      match rest st with
      | c :: t => if p c then many p (c :: before st) t (caps st) k else None
      | [] => None
      end
  | Grp i r1 => run r1 st (fun st' => k (set_group i st st'))
  | Bol => match before st with [] => k st | _ => None end
  | Eol =>
      match rest st with
      | [] => k st
      | [c] => if c =? 10 then k st else None
      | _ => None
      end
  end.

(** [re.match(r, s)]: a match at the start of [s]. *)
Definition re_match (r : regex) (s : pystr) : option mstate :=
  run r (MState [] s []) Some.

(** [re.search(r, s)]: the match at the leftmost position that has one. *)
Fixpoint search_from (r : regex) (bef rst : pystr) : option mstate :=
  match run r (MState bef rst []) Some with
  | Some m => Some m
  | None =>
      match rst with
      | c :: t => search_from r (c :: bef) t
      | [] => None
      end
  end.

Definition re_search (r : regex) (s : pystr) : option mstate :=
  search_from r [] s.

(** The value of group [i] of a match ([None] when it took no part). *)
Fixpoint group (i : nat) (cs : list (nat * pystr)) : option pystr :=
  match cs with
  | (j, s) :: t => if Nat.eqb i j then Some s else group i t
  | [] => None
  end.

(** [m.groups()] for a pattern with [n] groups. *)
Definition groups (n : nat) (m : mstate) : list (option pystr) :=
  map (fun i => group i (caps m)) (seq 1 n).

(** The characters a pattern can consume: those of its classes. *)
Fixpoint alphabet (r : regex) (c : char) : bool :=
  match r with
  | Cls p | Many1 p => p c
  | Cat r1 r2 | Alt r1 r2 => alphabet r1 c || alphabet r2 c
  | Opt r1 | Upto _ r1 | Grp _ r1 => alphabet r1 c
  | Eps | Bol | Eol => false
  end.

(** The matcher moved from [st] to [st'] over characters of [P] only. *)
Definition advanced (P : char -> bool) (st st' : mstate) : Prop :=
  exists used, rest st = used ++ rest st' /\ Forall (fun c => P c = true) used.

End Re.
Export Re.

(* ===================================================================== *)
(** * clay.py: the name normaliser *)
(* ===================================================================== *)

Definition is_dot (c : char) : bool := c =? 46.
Definition is_dot_or_space (c : char) : bool := (c =? 46) || (c =? 32).
Definition is_quote (c : char) : bool := (c =? squote) || (c =? dquote).
Definition not_quote (c : char) : bool := negb (is_quote c).
Definition is_squote (c : char) : bool := c =? squote.
Definition not_squote (c : char) : bool := negb (c =? squote).
Definition is_dquote (c : char) : bool := c =? dquote.
Definition not_dquote (c : char) : bool := negb (c =? dquote).

(** [^[A-Za-z](?:[. ]?[A-Za-z]){0,2}[.]?$] *)
Definition initials_re : regex :=
  Cat Bol
   (Cat (Cls is_letter)
    (Cat (Upto 2 (Cat (Opt (Cls is_dot_or_space)) (Cls is_letter)))
     (Cat (Opt (Cls is_dot)) Eol))).

(** The pattern of [clean_first_name]: a quote of either kind, a group of
    one or more characters that are not quotes, a quote of either kind; or
    the same between two double quotes; or between two single quotes. *)
Definition quote_re : regex :=
  Alt (Cat (Cls is_quote) (Cat (Grp 1 (Many1 not_quote)) (Cls is_quote)))
   (Alt (Cat (Cls is_dquote) (Cat (Grp 2 (Many1 not_dquote)) (Cls is_dquote)))
        (Cat (Cls is_squote) (Cat (Grp 3 (Many1 not_squote)) (Cls is_squote)))).

(** [next((g for g in gs if g is not None), None)] *)
Fixpoint first_not_none (gs : list (option pystr)) : option pystr :=
  match gs with
  | Some g :: _ => Some g
  | None :: t => first_not_none t
  | [] => None
  end.

(** [pd.isna(v)] for a scalar. *)
Definition pd_isna (v : pyval) : bool :=
  match v with
  | PNone => true
  | PFloat f => is_nan f
  | _ => false
  end.

(** The missing cell of a table. *)
Definition NaN : pyval := PFloat nan.

Section Names.
Context (rt : Runtime).

(** [s.capitalize()] *)
Definition capitalize (s : pystr) : pystr :=
  if forallb is_ascii s then capitalize_ascii s else capitalize_unicode rt s.

(** [str(v)] *)
Definition py_str (v : pyval) : pystr :=
  match v with
  | PStr s => s
  | PInt z => Str.of_Z z
  | PBool true => str "True"
  | PBool false => str "False"
  | PNone => str "None"
  | PFloat f => str_of_float rt f
  | PList _ | PDict _ => str_of_container rt v
  end.

Definition is_initials (name : pyval) : bool :=
  if pd_isna name then false
  else
    let name := strip (py_str name) in
    match re_match initials_re name with
    | Some _ => true
    | None => false
    end.

(** Returns [(cleaned_name, is_valid)]. *)
Definition clean_first_name (name : pyval) : result (pyval * bool) :=
  if pd_isna name then Ok (name, false)
  else
    let name := strip (py_str name) in
    if is_initials (PStr name) then Ok (PStr name, false)
    else
      let quoted :=
        match re_search quote_re name with
        | Some quote_match =>
            match first_not_none (groups 3 quote_match) with
            | Some quoted_name =>
                match quoted_name with
                | [] => None
                | _ => Some (strip quoted_name)
                end
            | None => None
            end
        | None => None
        end in
      match quoted with
      | Some q => Ok (PStr q, true)
      | None =>
          match split name with
          | first_part :: _ => Ok (PStr (capitalize first_part), true)
          | [] => Raise IndexError
          end
      end.

End Names.

(* ===================================================================== *)
(** * clay.py: the e-mail validator *)
(* ===================================================================== *)

(** What [requests.get] hands back: a status code and a body, whose
    decoding by [response.json()] gives a value or raises. *)
Record response := Response {
  status_code : Z;
  json : result pyval;
}.

(** One answer of the network to one [requests.get]: a response, or an
    exception raised by the transport. *)
Inductive reply :=
| Answer (r : response)
| Failure.

(** What the validator does to the outside world, in order. *)
Inductive event :=
| Get (url : pystr)       (* the request requests.get(url) sends *)
| Sleep (secs : Z).       (* time.sleep(secs) *)

(** [d.get(key, default)]; a value that is no [dict] has no [get]. *)
Fixpoint assoc (key : pystr) (d : list (pystr * pyval)) : option pyval :=
  match d with
  | (k, v) :: t => if Str.eqb k key then Some v else assoc key t
  | [] => None
  end.

Definition py_get (v : pyval) (key : pystr) (default : pyval) : result pyval :=
  match v with
  | PDict d => Ok (from_option id default (assoc key d))
  | _ => Raise AttributeError
  end.

(** [float(z)] for an [int]: the nearest binary64, ties to even;
    [OverflowError] beyond the range. *)
Definition float_of_int (z : Z) : result float :=
  match binary_normalize FloatOps.prec FloatOps.emax z 0 false with
  | S754_infinity _ => Raise OverflowError
  | sf => Ok (FloatOps.SF2Prim sf)
  end.

Section Validator.
Context (rt : Runtime).

(** [float(v)] *)
Definition py_float (v : pyval) : result float :=
  match v with
  | PFloat f => Ok f
  | PInt z => float_of_int z
  | PBool true => Ok 1%float
  | PBool false => Ok 0%float
  | PStr s =>
      match float_of_str rt s with
      | Some f => Ok f
      | None => Raise ValueError
      end
  | PNone | PList _ | PDict _ => Raise TypeError
  end.

(** The branch of [validate_email] for status 200, before the
    [except] clause. *)
Definition check_deliverable (r : response) : result pyval :=
  data ← json r;
  deliverability ← py_get data (str "deliverability") PNone;
  let is_deliverable :=
    match deliverability with
    | PStr s => Str.eqb s (str "DELIVERABLE")
    | _ => false
    end in
  score ← py_get data (str "quality_score") (PInt 0);
  quality_score ← py_float score;
  format ← py_get data (str "is_valid_format") (PDict []);
  is_valid_format ← py_get format (str "value") (PBool false);
  (* is_deliverable and quality_score > 0.7 and is_valid_format *)
  Ok (if is_deliverable
      then if (0.7 <? quality_score)%float then is_valid_format
           else PBool false
      else PBool false).

(** [except Exception: return False] *)
Definition or_false (r : result pyval) : pyval :=
  match r with
  | Ok v => v
  | Raise _ => PBool false
  end.

Definition validation_url (email : pyval) (api_key : pystr) : pystr :=
  str "https://emailvalidation.abstractapi.com/v1/?api_key=" ++ api_key
  ++ str "&email=" ++ py_str rt email.

(** [validate_email(email, api_key)] run against the answers [net] the
    network will give, one per request, when the interpreter has room for
    [room] calls of the function one inside the other.  The retry is a
    call of the function by itself, inside the [try] block: a call for
    which there is no room raises RecursionError before its request
    leaves, the [except] clause catches it and [False] is returned, which
    every call above returns in its turn.  The result is the returned
    value, the events of the call and the answers left; [None] when the
    call is still waiting for an answer after [net] is used up. *)
Fixpoint validate_email_at (room : nat) (email : pyval) (api_key : pystr)
    (net : list reply) : option (pyval * list event * list reply) :=
  let url := validation_url email api_key in
  match room with
  | O => Some (PBool false, [], net)
  | S room' =>
      match net with
      | [] => None
      | Failure :: net' => Some (PBool false, [Get url], net')
      | Answer r :: net' =>
          if (status_code r =? 200)%Z
          then Some (or_false (check_deliverable r), [Get url], net')
          else if (status_code r =? 429)%Z
          then
            match validate_email_at room' email api_key net' with
            | Some (v, evs, net'') =>
                Some (v, Get url :: Sleep 1 :: evs, net'')
            | None => None
            end
          else if (status_code r =? 422)%Z
          then Some (PBool false, [Get url], net')
          else Some (PBool false, [Get url], net')
      end
  end.

(** The call as [process_csv] makes it: there is room for it and for
    [recursion_room] calls inside it. *)
Definition validate_email (email : pyval) (api_key : pystr)
    (net : list reply) : option (pyval * list event * list reply) :=
  validate_email_at (S (recursion_room rt)) email api_key net.

(** The events of [n] rate-limited attempts: the request, then the
    wait of one second. *)
Definition retries (url : pystr) (n : nat) : list event :=
  concat (replicate n [Get url; Sleep 1]).

(** The quality score of a response read as a real number, in the
    words of the specification: a number stands for itself (an integer for
    the binary64 nearest to it, [true] and [false] for 1 and 0, Python's
    [bool] being an [int]), a text for the number it spells, a missing
    field for 0; anything else is no number. *)
Definition score_number (d : list (pystr * pyval)) : option float :=
  match assoc (str "quality_score") d with
  | None => Some 0%float
  | Some (PFloat q) => Some q
  | Some (PInt z) =>
      match binary_normalize FloatOps.prec FloatOps.emax z 0 false with
      | S754_infinity _ => None
      | nearest => Some (FloatOps.SF2Prim nearest)
      end
  | Some (PBool b) => Some (if b then 1%float else 0%float)
  | Some (PStr s) => float_of_str rt s
  | Some (PNone | PList _ | PDict _) => None
  end.

(** The three conditions of the decision rule on the fields of a
    response, in the words of the specification. *)
Definition is_deliverable (d : list (pystr * pyval)) : Prop :=
  assoc (str "deliverability") d = Some (PStr (str "DELIVERABLE")).

Definition score_above (d : list (pystr * pyval)) : Prop :=
  exists q, score_number d = Some q /\ (0.7 <? q)%float = true.

Definition format_valid (d : list (pystr * pyval)) : Prop :=
  exists f,
    assoc (str "is_valid_format") d = Some (PDict f)
    /\ assoc (str "value") f = Some (PBool true).

(** The decision rule: the deliverability is DELIVERABLE, the quality
    score read as a number is above 0.7, and the format is reported
    valid. *)
Definition keep_rule (r : response) : Prop :=
  exists d,
    json r = Ok (PDict d)
    /\ is_deliverable d /\ score_above d /\ format_valid d.

End Validator.

(* ===================================================================== *)
(** * Tables ([pandas.DataFrame]) *)
(* ===================================================================== *)

(** A table: named columns and rows of cells, one cell per column. *)
Record DataFrame := Frame {
  columns : list pystr;
  rows : list (list pyval);
}.

(** Every row has one cell per column. *)
Definition rectangular (df : DataFrame) : Prop :=
  Forall (fun row => length row = length (columns df)) (rows df).

(** The position of a column. *)
Fixpoint index_of (name : pystr) (cols : list pystr) : option nat :=
  match cols with
  | c :: t => if Str.eqb c name then Some O else S <$> index_of name t
  | [] => None
  end.

(** [row[name]] *)
Definition row_get (cols : list pystr) (row : list pyval) (name : pystr)
    : result pyval :=
  match index_of name cols with
  | Some i => Ok (default NaN (row !! i))
  | None => Raise KeyError
  end.

(** [df[name]] *)
Definition column (df : DataFrame) (name : pystr) : result (list pyval) :=
  match index_of name (columns df) with
  | Some i => Ok (map (fun row => default NaN (row !! i)) (rows df))
  | None => Raise KeyError
  end.

(** Write the cells [vals] at position [i] of the rows, or after their
    last cell when [i] is [None]. *)
Fixpoint write_cells (i : option nat) (rws : list (list pyval))
    (vals : list pyval) : list (list pyval) :=
  match rws, vals with
  | row :: rws', v :: vals' =>
      match i with
      | Some i => <[i := v]> row
      | None => row ++ [v]
      end :: write_cells i rws' vals'
  | _, _ => []
  end.

(** [df[name] = vals]: replaces the column, or adds it as the last one. *)
Definition set_column (df : DataFrame) (name : pystr) (vals : list pyval)
    : DataFrame :=
  match index_of name (columns df) with
  | Some i => Frame (columns df) (write_cells (Some i) (rows df) vals)
  | None => Frame (columns df ++ [name]) (write_cells None (rows df) vals)
  end.

(** [df.drop(name, axis=1)] *)
Definition drop_column (df : DataFrame) (name : pystr) : result DataFrame :=
  match index_of name (columns df) with
  | Some i => Ok (Frame (delete i (columns df)) (map (delete i) (rows df)))
  | None => Raise KeyError
  end.

(** The rows whose entry in the mask is [True]. *)
Fixpoint select (mask : list bool) (rws : list (list pyval))
    : list (list pyval) :=
  match mask, rws with
  | b :: mask', row :: rws' =>
      if b then row :: select mask' rws' else select mask' rws'
  | _, _ => []
  end.

(** A series of Python values as a boolean mask.  Indexing a table by a
    series with an entry that is no [bool] is not a row selection; it is
    taken to raise. *)
Fixpoint as_mask (tags : list pyval) : result (list bool) :=
  match tags with
  | PBool b :: t => m ← as_mask t; Ok (b :: m)
  | _ :: _ => Raise KeyError
  | [] => Ok []
  end.

(** [df[tags]] *)
Definition select_rows (df : DataFrame) (tags : list pyval)
    : result DataFrame :=
  mask ← as_mask tags;
  Ok (Frame (columns df) (select mask (rows df))).

(* ===================================================================== *)
(** * clay.py: the cleaning pipeline *)
(* ===================================================================== *)

(** An entry of [invalid_names]: the original name and the e-mail. *)
Record InvalidName := Invalid {
  original_name : pyval;
  invalid_email : pyval;
}.

(** The content of the report file. *)
Record Report := MkReport {
  total_rows : nat;
  valid_emails : nat;
  invalid_names : list InvalidName;
}.

Section Pipeline.
Context (rt : Runtime).

(** [clean_and_track(row)], with the list [invalid_names] it appends to
    passed in and out. *)
Definition clean_and_track (cols : list pystr) (row : list pyval)
    (invalid : list InvalidName) : result (pyval * list InvalidName) :=
  first ← row_get cols row (str "First Name");
  '(name, is_valid) ← clean_first_name rt first;
  match is_valid with
  | true => Ok (name, invalid)
  | false =>
      email ← row_get cols row (str "Email");
      Ok (name, invalid ++ [Invalid first email])
  end.

(** [df.apply(clean_and_track, axis=1)]: the rows in order. *)
Fixpoint clean_rows (cols : list pystr) (rws : list (list pyval))
    (invalid : list InvalidName) : result (list pyval * list InvalidName) :=
  match rws with
  | [] => Ok ([], invalid)
  | row :: rws' =>
      '(name, invalid') ← clean_and_track cols row invalid;
      '(names, invalid'') ← clean_rows cols rws' invalid';
      Ok (name :: names, invalid'')
  end.

(** [df['Email'].apply(validate_with_progress)]: one call after the
    other, each on the answers the one before left. *)
Fixpoint validate_all (emails : list pyval) (api_key : pystr)
    (net : list reply) : option (list pyval * list event * list reply) :=
  match emails with
  | [] => Some ([], [], net)
  | email :: emails' =>
      '(tag, evs, net') ← validate_email rt email api_key net;
      '(tags, evs', net'') ← validate_all emails' api_key net';
      Some (tag :: tags, evs ++ evs', net'')
  end.

(** The number of [True] in a mask ([.sum()]). *)
Definition count_true (mask : list bool) : nat :=
  length (List.filter id mask).

(** [process_csv]: from the table read from the input file to the table
    written to the output file and the content of the report.  The names
    of the files and the time stamps are left out. *)
Definition process_csv (df : DataFrame) (api_key : pystr) (net : list reply)
    : option (result (DataFrame * Report) * list event * list reply) :=
  match
    '(names, invalid) ← clean_rows (columns df) (rows df) [];
    let df := set_column df (str "First Name") names in
    emails ← column df (str "Email");
    Ok (df, invalid, emails)
  with
  | Raise e => Some (Raise e, [], net)
  | Ok (df1, invalid, emails) =>
      '(tags, evs, net') ← validate_all emails api_key net;
      let total_emails := length (rows df1) in
      let df2 := set_column df1 (str "is_valid_email") tags in
      Some (mask ← as_mask tags;
            let valid_count := count_true mask in
            kept ← select_rows df2 tags;
            out ← drop_column kept (str "is_valid_email");
            Ok (out, MkReport total_emails valid_count invalid),
            evs, net')
  end.

End Pipeline.

(* ===================================================================== *)
(** * dedupe.py: the deduplicator *)
(* ===================================================================== *)

Module Dedupe.

Definition is_str (v : pyval) : bool :=
  match v with
  | PStr _ => true
  | _ => false
  end.

(** The dtype [read_csv] gives a column is [object] when the column
    holds a string, and when it holds no cell at all; a column of missing
    cells only is a column of floats. *)
Definition is_object (col : list pyval) : bool :=
  match col with
  | [] => true
  | _ => existsb is_str col
  end.

(** [col.dropna()] *)
Definition dropna (col : list pyval) : list pyval :=
  List.filter (fun v => negb (pd_isna v)) col.

(** [col.fillna('')] *)
Definition fillna (col : list pyval) : list pyval :=
  map (fun v => if pd_isna v then PStr [] else v) col.

(** [col.str.strip()] on a column without missing cells.  The cells of
    a text column read from a CSV file are strings; the accessor is taken
    to raise on any other cell. *)
Fixpoint str_strip (col : list pyval) : result (list pystr) :=
  match col with
  | [] => Ok []
  | PStr s :: t => l ← str_strip t; Ok (strip s :: l)
  | _ :: _ => Raise AttributeError
  end.

(** [set(master_df['LinkedIn URL'].dropna().str.strip().tolist())]; the
    [.str] accessor raises on a column that is not of dtype [object]. *)
Definition master_urls (col : list pyval) : result (gset pystr) :=
  if is_object col
  then urls ← str_strip (dropna col); Ok (list_to_set urls)
  else Raise AttributeError.

(** [~profiles.isin(master_urls) & (profiles != '')] *)
Definition unique_mask (urls : gset pystr) (profiles : list pystr)
    : list bool :=
  map (fun p => negb (bool_decide (p ∈ urls)) && negb (Str.eqb p []))
      profiles.

(** [dedupe_csv], from the two tables read to the table written;
    [Ok None] when a key column is not there (the function reports it and
    returns [None]). *)
Definition dedupe_csv (master_df input_df : DataFrame)
    : result (option DataFrame) :=
  match index_of (str "LinkedIn URL") (columns master_df) with
  | None => Ok None
  | Some _ =>
      match index_of (str "LinkedIn Profile") (columns input_df) with
      | None => Ok None
      | Some _ =>
          master_col ← column master_df (str "LinkedIn URL");
          urls ← master_urls master_col;
          input_col ← column input_df (str "LinkedIn Profile");
          profiles ← str_strip (fillna input_col);
          let input_df :=
            set_column input_df (str "LinkedIn Profile") (map PStr profiles) in
          let unique_df :=
            Frame (columns input_df)
                  (select (unique_mask urls profiles) (rows input_df)) in
          Ok (Some unique_df)
      end
  end.

(** The key of a row as the filter sees it: the cell trimmed, the
    empty string for a missing cell. *)
Definition trimmed_key (v : pyval) : pystr :=
  match v with
  | PStr s => strip s
  | _ => []
  end.


End Dedupe.
Export Dedupe.

(* ===================================================================== *)
(** * Sample data *)
(* ===================================================================== *)

(** An answer of the validation service for a good address. *)
Definition good_response : response :=
  Response 200
    (Ok (PDict [(str "email", PStr (str "a@x.com"));
                (str "deliverability", PStr (str "DELIVERABLE"));
                (str "quality_score", PFloat 0.95);
                (str "is_valid_format",
                 PDict [(str "value", PBool true);
                        (str "text", PStr (str "TRUE"))])])).

(** An answer that is deliverable and of valid format, with the
    quality score [score], or without the field. *)
Definition scored_response (score : option pyval) : response :=
  Response 200
    (Ok (PDict ([(str "deliverability", PStr (str "DELIVERABLE"))]
                ++ match score with
                   | Some v => [(str "quality_score", v)]
                   | None => []
                   end
                ++ [(str "is_valid_format",
                     PDict [(str "value", PBool true);
                            (str "text", PStr (str "TRUE"))])]))).

(** A runtime that reads the two scores of the examples that are
    given as text. *)
Definition table_runtime : Runtime := {|
  float_of_str := fun s =>
    if Str.eqb s (str "0.95") then Some 0.95%float
    else if Str.eqb s (str "0.50") then Some 0.5%float
    else None;
  str_of_float := str_of_float ascii_runtime;
  str_of_container := str_of_container ascii_runtime;
  capitalize_unicode := capitalize_unicode ascii_runtime;
  recursion_room := recursion_room ascii_runtime;
|}.

(** The answers for a rate-limited and for a quota-exceeded request. *)
Definition rate_limited : response := Response 429 (Raise ValueError).
Definition quota_exceeded : response := Response 422 (Raise ValueError).

Definition sample_key : pystr := str "k".

(** The table of the end-to-end scenario, and what the network
    answers to its two requests. *)
Definition sample_table : DataFrame :=
  Frame [str "First Name"; str "Email"]
        [[PStr (str "A.B."); PStr (str "a@x.com")];
         [PStr (str "maria garcia"); PStr (str "m@x.com")]].

Definition sample_net : list reply :=
  [Answer good_response; Answer good_response].

Definition sample_output : DataFrame :=
  Frame [str "First Name"; str "Email"]
        [[PStr (str "A.B."); PStr (str "a@x.com")];
         [PStr (str "Maria"); PStr (str "m@x.com")]].

Definition sample_report : Report :=
  MkReport 2 2 [Invalid (PStr (str "A.B.")) (PStr (str "a@x.com"))].

Definition sample_events : list event :=
  [Get (validation_url ascii_runtime (PStr (str "a@x.com")) sample_key);
   Get (validation_url ascii_runtime (PStr (str "m@x.com")) sample_key)].



(** The same scenario with the keys as texts throughout: the master
    holds the keys u1 and u2, the input the keys u1, u2 between spaces, u3
    and the empty one. *)
Definition sample_master : DataFrame :=
  Frame [str "Name"; str "LinkedIn URL"]
        [[PStr (str "Ann"); PStr (str "u1")];
         [PStr (str "Ben"); PStr (str "u2")]].

Definition sample_input : DataFrame :=
  Frame [str "LinkedIn Profile"; str "Company"]
        [[PStr (str "u1"); PStr (str "c1")];
         [PStr (str " u2 "); PStr (str "c2")];
         [PStr (str "u3"); PStr (str "c3")];
         [PStr (str ""); PStr (str "c4")]].

Definition sample_unique : DataFrame :=
  Frame [str "LinkedIn Profile"; str "Company"]
        [[PStr (str "u3"); PStr (str "c3")]].

(* ===================================================================== *)
(** * Paths ([os.path] on POSIX) *)
(* ===================================================================== *)

Module Path.

Definition slash : char := 47.
Definition dot : char := 46.
Definition is_slash (c : char) : bool := c =? slash.

(** [s.endswith(suffix)], [s.startswith(prefix)] *)
Definition endswith (s suffix : pystr) : bool :=
  bool_decide (suffix `suffix_of` s).
Definition startswith (s prefix : pystr) : bool :=
  bool_decide (prefix `prefix_of` s).

(** [s.rfind(c)] for a character: the last position of [c]; [None] is
    the result -1. *)
Fixpoint rfind (c : char) (s : pystr) : option nat :=
  match s with
  | [] => None
  | a :: t =>
      match rfind c t with
      | Some i => Some (S i)
      | None => if a =? c then Some O else None
      end
  end.

(** [os.path.basename(p)]: [p[p.rfind('/') + 1:]] *)
Definition basename (p : pystr) : pystr :=
  match rfind slash p with
  | Some i => drop (S i) p
  | None => p
  end.

(** [head.rstrip('/')] *)
Definition rstrip_slash (s : pystr) : pystr :=
  rev ((fix go (l : pystr) : pystr :=
          match l with
          | c :: t => if is_slash c then go t else l
          | [] => []
          end) (rev s)).

(** [os.path.dirname(p)] *)
Definition dirname (p : pystr) : pystr :=
  let head :=
    match rfind slash p with
    | Some i => take (S i) p
    | None => []
    end in
  match head with
  | [] => head
  | _ => if forallb is_slash head then head else rstrip_slash head
  end.

(** [os.path.splitext(p)]: split at the last dot, when it comes after
    the last slash and after a character of the file name that is no
    dot. *)
Definition splitext (p : pystr) : pystr * pystr :=
  match rfind dot p with
  | None => (p, [])
  | Some dotIndex =>
      let start :=
        match rfind slash p with
        | Some sepIndex => S sepIndex
        | None => O
        end in
      if (start <=? dotIndex)%nat
         && existsb (fun c => negb (c =? dot))
                    (take (dotIndex - start) (drop start p))
      then (take dotIndex p, drop dotIndex p)
      else (p, [])
  end.

(** [os.path.join(a, b)] *)
Definition join (a b : pystr) : pystr :=
  if startswith b [slash] then b
  else
    match a with
    | [] => a ++ b
    | _ => if endswith a [slash] then a ++ b else a ++ slash :: b
    end.

End Path.
Export Path.

(* ===================================================================== *)
(** * Files and the operator: the [main] functions *)
(* ===================================================================== *)

(** The state of the disk as the scripts see it: which paths exist,
    and what [pd.read_csv] gives for a path. *)
Record Disk := {
  path_exists : pystr -> bool;
  read_csv : pystr -> result DataFrame;
}.

(** A file written: a table by [to_csv], the report by [open] and
    [write]. *)
Inductive written :=
| WriteCsv (path : pystr) (df : DataFrame)
| WriteReport (path : pystr) (report : Report).

(** [if not name.endswith('.csv'): name += '.csv'] *)
Definition with_csv (name : pystr) : pystr :=
  if endswith name (str ".csv") then name else name ++ str ".csv".

(** The loop that asks for the name of a file until the file exists.
    [inputs] are the lines the operator types; the result is the path
    and the lines left, [None] while the loop is still asking. *)
Fixpoint ask_file (disk : Disk) (downloads_folder : pystr)
    (inputs : list pystr) : option (pystr * list pystr) :=
  match inputs with
  | [] => None
  | csv_name :: inputs' =>
      let input_file := join downloads_folder (with_csv csv_name) in
      if path_exists disk input_file then Some (input_file, inputs')
      else ask_file disk downloads_folder inputs'
  end.

(** [for i in range(num_files)]: one file after the other. *)
Fixpoint ask_files (disk : Disk) (downloads_folder : pystr) (num_files : nat)
    (inputs : list pystr) : option (list pystr * list pystr) :=
  match num_files with
  | O => Some ([], inputs)
  | S n =>
      '(input_file, inputs') ← ask_file disk downloads_folder inputs;
      '(files, inputs'') ← ask_files disk downloads_folder n inputs';
      Some (input_file :: files, inputs'')
  end.

Section Main.
Context (rt : Runtime).
(** [int(s)] for a line typed; [None] is ValueError. *)
Context (int_of_str : pystr -> option Z).

(** The loop that asks for the number of files until it is given a
    number above 0. *)
Fixpoint ask_count (inputs : list pystr) : option (Z * list pystr) :=
  match inputs with
  | [] => None
  | line :: inputs' =>
      match int_of_str line with
      | Some num_files =>
          if (0 <? num_files)%Z then Some (num_files, inputs')
          else ask_count inputs'
      | None => ask_count inputs'
      end
  end.

(** [process_csv(input_file, api_key)] with its files: the table is
    read, cleaned and validated, then the cleaned table and the report
    are written beside the input file.  [timestamp] is what the clock
    gives when the names are made.  Writing is taken to succeed. *)
Definition process_csv_file (disk : Disk) (timestamp : pystr)
    (input_file api_key : pystr) (net : list reply)
    : option (result (pystr * pystr) * list written
              * list event * list reply) :=
  match read_csv disk input_file with
  | Raise e => Some (Raise e, [], [], net)
  | Ok df =>
      let base_filename := (splitext (basename input_file)).1 in
      let report_file :=
        base_filename ++ str "_report_" ++ timestamp ++ str ".txt" in
      let report_path := join (dirname input_file) report_file in
      '(res, evs, net') ← process_csv rt df api_key net;
      match res with
      | Raise e => Some (Raise e, [], evs, net')
      | Ok (out, report) =>
          let output_file :=
            base_filename ++ str "_cleaned_" ++ timestamp ++ str ".csv" in
          let output_path := join (dirname input_file) output_file in
          Some (Ok (output_file, report_file),
                [WriteCsv output_path out; WriteReport report_path report],
                evs, net')
      end
  end.

(** The loop of [main] over the queue: each file in a [try], the
    exception of one file reported and the next file taken.  [clock]
    gives the time stamp for the file at each position. *)
Fixpoint process_queue (disk : Disk) (clock : nat -> pystr) (position : nat)
    (files : list pystr) (api_key : pystr) (net : list reply)
    : option (list (result (pystr * pystr)) * list written
              * list event * list reply) :=
  match files with
  | [] => Some ([], [], [], net)
  | file_path :: files' =>
      '(res, ws, evs, net') ←
        process_csv_file disk (clock position) file_path api_key net;
      '(results, ws', evs', net'') ←
        process_queue disk clock (S position) files' api_key net';
      Some (res :: results, ws ++ ws', evs ++ evs', net'')
  end.

(** What a run of [main] of clay.py comes to. *)
Inductive main_run :=
| NoApiKey
| Processed (files : list pystr) (results : list (result (pystr * pystr)))
            (ws : list written) (evs : list event)
            (inputs_left : list pystr) (net_left : list reply).

(** [main()] of clay.py.  [api_key] is what the environment holds
    under ABSTRACT_API_KEY, [downloads_folder] the expansion of
    ~/Downloads. *)
Definition clay_main (api_key : option pystr) (downloads_folder : pystr)
    (disk : Disk) (clock : nat -> pystr) (inputs : list pystr)
    (net : list reply) : option main_run :=
  match api_key with
  | None | Some [] => Some NoApiKey
  | Some key =>
      '(num_files, inputs1) ← ask_count inputs;
      '(files_to_process, inputs2) ←
        ask_files disk downloads_folder (Z.to_nat num_files) inputs1;
      '(results, ws, evs, net') ←
        process_queue disk clock 0 files_to_process key net;
      Some (Processed files_to_process results ws evs inputs2 net')
  end.

End Main.

(** [dedupe_csv(master_file, input_file)] with its files: a table that
    cannot be read, like a missing key column, makes it return [None]; the
    unique rows are written beside the input file. *)
Definition dedupe_csv_file (disk : Disk) (timestamp : pystr)
    (master_file input_file : pystr)
    : result (option pystr) * list written :=
  match read_csv disk master_file with
  | Raise _ => (Ok None, [])
  | Ok master_df =>
      match read_csv disk input_file with
      | Raise _ => (Ok None, [])
      | Ok input_df =>
          match dedupe_csv master_df input_df with
          | Raise e => (Raise e, [])
          | Ok None => (Ok None, [])
          | Ok (Some unique_df) =>
              let base_filename := (splitext (basename input_file)).1 in
              let output_file :=
                base_filename ++ str "_unique_" ++ timestamp ++ str ".csv" in
              let output_path := join (dirname input_file) output_file in
              (Ok (Some output_file), [WriteCsv output_path unique_df])
          end
      end
  end.

(** What a run of [main] of dedupe.py comes to. *)
Inductive dedupe_run :=
| NoMaster
| Deduped (input_file : pystr) (res : result (option pystr))
          (ws : list written) (inputs_left : list pystr).

Definition master_name : pystr :=
  str "Export (inclusive of people emailed) - People.csv".

(** [main()] of dedupe.py. *)
Definition dedupe_main (downloads_folder : pystr) (disk : Disk)
    (timestamp : pystr) (inputs : list pystr) : option dedupe_run :=
  let master_file := join downloads_folder master_name in
  if path_exists disk master_file
  then
    '(input_file, inputs') ← ask_file disk downloads_folder inputs;
    let '(res, ws) := dedupe_csv_file disk timestamp master_file input_file in
    Some (Deduped input_file res ws inputs')
  else Some NoMaster.

(* ===================================================================== *)
(** * Measures used in the properties *)
(* ===================================================================== *)

(** The most characters a pattern can consume; [None] when there is no
    bound. *)
Fixpoint width (r : regex) : option nat :=
  match r with
  | Eps | Bol | Eol => Some O
  | Cls _ => Some 1%nat
  | Many1 _ => None
  | Cat r1 r2 =>
      match width r1, width r2 with
      | Some a, Some b => Some (a + b)%nat
      | _, _ => None
      end
  | Alt r1 r2 =>
      match width r1, width r2 with
      | Some a, Some b => Some (Nat.max a b)
      | _, _ => None
      end
  | Opt r1 | Grp _ r1 => width r1
  | Upto n r1 =>
      match width r1 with
      | Some a => Some (n * a)%nat
      | None => None
      end
  end.

(** The strings a pattern can match, the conditions of [^] and [$] on
    the position left aside. *)
Fixpoint lang (r : regex) (w : pystr) : Prop :=
  match r with
  | Eps | Bol | Eol => w = []
  | Cls p => exists c, w = [c] /\ p c = true
  | Cat r1 r2 => exists u v, w = u ++ v /\ lang r1 u /\ lang r2 v
  | Alt r1 r2 => lang r1 w \/ lang r2 w
  | Opt r1 => w = [] \/ lang r1 w
  | Upto n r1 =>
      exists us, (length us <= n)%nat /\ Forall (lang r1) us /\ w = concat us
  | Many1 p => w <> [] /\ Forall (fun c => p c = true) w
  | Grp _ r1 => lang r1 w
  end.

(** Initials in the words of the specification: one to three letters,
    each after the first optionally preceded by one period or one space,
    with an optional period at the end, and nothing else. *)
Definition next_initial (g : pystr) : Prop :=
  exists b, is_letter b = true
            /\ (g = [b] \/ exists sep, is_dot_or_space sep = true
                                       /\ g = [sep; b]).

Definition initials_form (t : pystr) : Prop :=
  exists a gs dot,
    t = a :: concat gs ++ dot
    /\ is_letter a = true
    /\ (length gs <= 2)%nat /\ Forall next_initial gs
    /\ (dot = [] \/ dot = [46]).

(** The response is the rate-limit one. *)
Definition is_rate_limit (rep : reply) : Prop :=
  exists r, rep = Answer r /\ status_code r = 429%Z.

Definition is_get (ev : event) : bool :=
  match ev with
  | Get _ => true
  | Sleep _ => false
  end.

(** A file of the queue was processed to its end. *)
Definition succeeded {A} (r : result A) : bool :=
  match r with
  | Ok _ => true
  | Raise _ => false
  end.

(** A disk for the scenarios: the Downloads folder holds the table of
    the end-to-end scenario as leads.csv, the two tables of the
    deduplicator (the master under its fixed name, the input as new.csv)
    and a file broken.csv that cannot be parsed. *)
Definition sample_folder : pystr := str "/home/u/Downloads".

Definition sample_files : list (pystr * result DataFrame) :=
  [(str "/home/u/Downloads/leads.csv", Ok sample_table);
   (str "/home/u/Downloads/broken.csv", Raise ValueError);
   (str "/home/u/Downloads/new.csv", Ok sample_input);
   (str "/home/u/Downloads/Export (inclusive of people emailed) - People.csv",
    Ok sample_master)].

Fixpoint find_file (path : pystr) (files : list (pystr * result DataFrame))
    : option (result DataFrame) :=
  match files with
  | (p, r) :: t => if Str.eqb p path then Some r else find_file path t
  | [] => None
  end.

Definition sample_disk : Disk := {|
  path_exists := fun p =>
    match find_file p sample_files with
    | Some _ => true
    | None => false
    end;
  read_csv := fun p => default (Raise ValueError) (find_file p sample_files);
|}.

Definition sample_stamp : pystr := str "20250101_120000".

(** [int(s)] on the lines of the scenarios. *)
Definition sample_int (line : pystr) : option Z :=
  if Str.eqb line (str "2") then Some 2%Z
  else if Str.eqb line (str "0") then Some 0%Z
  else None.



(** A table whose second row has a first name of spaces only. *)
Definition blank_name_table : DataFrame :=
  Frame [str "First Name"; str "Email"; str "Company"]
        [[PStr (str "maria garcia"); PStr (str "m@x.com"); PStr (str "c1")];
         [PStr (str "  "); PStr (str "b@x.com"); PStr (str "c2")]].

(** The table of the scenario with a third column. *)
Definition wide_table : DataFrame :=
  Frame [str "First Name"; str "Email"; str "Company"]
        [[PStr (str "A.B."); PStr (str "a@x.com"); PStr (str "c1")];
         [PStr (str "maria garcia"); PStr (str "m@x.com"); PStr (str "c2")]].

Definition wide_output : DataFrame :=
  Frame [str "First Name"; str "Email"; str "Company"]
        [[PStr (str "Maria"); PStr (str "m@x.com"); PStr (str "c2")]].

Definition wide_report : Report :=
  MkReport 2 1 [Invalid (PStr (str "A.B.")) (PStr (str "a@x.com"))].

(** The trimmed key of a row whose key column is at position [i], and
    the test of the filter on it. *)
Definition key_of (i : nat) (row : list pyval) : pystr :=
  trimmed_key (default NaN (row !! i)).

Definition is_new (urls : gset pystr) (p : pystr) : bool :=
  negb (bool_decide (p ∈ urls)) && negb (Str.eqb p []).

(** A second master for the scenario of the deduplicator. *)
Definition second_master : DataFrame :=
  Frame [str "LinkedIn URL"] [[PStr (str "u3 ")]; [NaN]].

Definition second_unique : DataFrame :=
  Frame [str "LinkedIn Profile"; str "Company"]
        [[PStr (str "u1"); PStr (str "c1")];
         [PStr (str "u2"); PStr (str "c2")]].

(* ===================================================================== *)
(** * Properties of the string operations *)
(* ===================================================================== *)

Section StrFacts.

Lemma lstrip_idemp (s : pystr) : lstrip (lstrip s) = lstrip s.
Proof.
  induction s as [|c t IH]; [reflexivity|].
  simpl. destruct (isspace c) eqn:E; [exact IH|].
  simpl. rewrite E. reflexivity.
Qed.

Lemma lstrip_app_nonspace (l r : pystr) (c : char) :
  isspace c = false -> lstrip (l ++ c :: r) = lstrip l ++ c :: r.
Proof.
  intros Hc. induction l as [|a l IH]; simpl.
  - rewrite Hc. reflexivity.
  - destruct (isspace a); [exact IH | reflexivity].
Qed.

Lemma lstrip_spaces (s : pystr) :
  Forall (fun c => isspace c = true) s -> lstrip s = [].
Proof.
  induction 1 as [|c t Hc _ IH]; simpl; [reflexivity|].
  rewrite Hc. exact IH.
Qed.

Lemma rstrip_idemp (s : pystr) : rstrip (rstrip s) = rstrip s.
Proof.
  unfold rstrip. rewrite rev_involutive, lstrip_idemp. reflexivity.
Qed.

(** Trimming on the right leaves a string trimmed on the left so. *)
Lemma lstrip_rstrip (s : pystr) : lstrip s = s -> lstrip (rstrip s) = rstrip s.
Proof.
  destruct s as [|c t]; [reflexivity|].
  simpl. destruct (isspace c) eqn:E.
  - intros H. exfalso.
    assert (Hl : forall u : pystr, (length (lstrip u) <= length u)%nat).
    { induction u as [|a u IH]; simpl; [lia|].
      destruct (isspace a); simpl; lia. }
    specialize (Hl t). rewrite H in Hl. simpl in Hl. lia.
  - intros _. unfold rstrip. simpl rev at 2 3.
    rewrite (lstrip_app_nonspace (rev t) [] c E).
    rewrite rev_app_distr. simpl. rewrite E. reflexivity.
Qed.

Lemma strip_idemp (s : pystr) : strip (strip s) = strip s.
Proof.
  unfold strip.
  rewrite (lstrip_rstrip (lstrip s) (lstrip_idemp s)).
  apply rstrip_idemp.
Qed.

Lemma strip_spaces (s : pystr) :
  Forall (fun c => isspace c = true) s -> strip s = [].
Proof.
  intros H. unfold strip. rewrite (lstrip_spaces s H). reflexivity.
Qed.

Lemma lstrip_shorter (u : pystr) : (length (lstrip u) <= length u)%nat.
Proof.
  induction u as [|a u IH]; simpl; [lia|].
  destruct (isspace a); simpl; lia.
Qed.

Lemma lstrip_fixed_head (c : char) (t : pystr) :
  lstrip (c :: t) = c :: t -> isspace c = false.
Proof.
  simpl. destruct (isspace c); [|reflexivity].
  intros H. pose proof (lstrip_shorter t) as L. rewrite H in L.
  simpl in L. lia.
Qed.

Lemma lstrip_head (s : pystr) c t : lstrip s = c :: t -> isspace c = false.
Proof.
  intros H. apply (lstrip_fixed_head c t).
  rewrite <- H. apply lstrip_idemp.
Qed.

(** A trimmed string neither starts nor ends with whitespace. *)
Lemma strip_head (s : pystr) c t : strip s = c :: t -> isspace c = false.
Proof.
  intros H. apply (lstrip_fixed_head c t). rewrite <- H.
  unfold strip. apply lstrip_rstrip. apply lstrip_idemp.
Qed.

Lemma strip_last (s : pystr) t c : strip s = t ++ [c] -> isspace c = false.
Proof.
  unfold strip, rstrip. intros H.
  assert (E : lstrip (rev (lstrip s)) = c :: rev t).
  { rewrite <- (rev_involutive (lstrip (rev (lstrip s)))), H.
    rewrite rev_app_distr. reflexivity. }
  exact (lstrip_head _ _ _ E).
Qed.

End StrFacts.

(* ===================================================================== *)
(** * Properties of the matcher *)
(* ===================================================================== *)

Section ReFacts.

Lemma advanced_refl P st : advanced P st st.
Proof. exists []. split; [reflexivity | constructor]. Qed.

Lemma advanced_trans P Q R st1 st2 st3 :
  (forall c, P c = true -> R c = true) ->
  (forall c, Q c = true -> R c = true) ->
  advanced P st1 st2 -> advanced Q st2 st3 -> advanced R st1 st3.
Proof.
  intros HP HQ [u1 [E1 F1]] [u2 [E2 F2]].
  exists (u1 ++ u2). split.
  - rewrite E1, E2, app_assoc. reflexivity.
  - apply Forall_app. split.
    + eapply Forall_impl; [exact F1|]. exact HP.
    + eapply Forall_impl; [exact F2|]. exact HQ.
Qed.

Lemma advanced_weaken P R st1 st2 :
  (forall c, P c = true -> R c = true) ->
  advanced P st1 st2 -> advanced R st1 st2.
Proof.
  intros HP [u [E F]]. exists u. split; [exact E|].
  eapply Forall_impl; [exact F|]. exact HP.
Qed.

(** A greedy run that can stop where the class stops, stops there. *)
Lemma many_greedy p xs y t bef cs k m :
  Forall (fun c => p c = true) xs -> p y = false ->
  k (MState (rev xs ++ bef) (y :: t) cs) = Some m ->
  many p bef (xs ++ y :: t) cs k = Some m.
Proof.
  intros Hxs Hy. revert bef.
  induction Hxs as [|x xs Hx _ IH]; intros bef Hk; simpl in *.
  - rewrite Hy. exact Hk.
  - rewrite Hx. rewrite (IH (x :: bef)); [reflexivity|].
    rewrite <- app_assoc in Hk. exact Hk.
Qed.

Lemma many_advanced p rst bef cs k m :
  many p bef rst cs k = Some m ->
  exists st', k st' = Some m /\
    exists used, rst = used ++ rest st' /\ Forall (fun c => p c = true) used.
Proof.
  revert bef. induction rst as [|c t IH]; intros bef; simpl.
  - intros H. eexists. split; [exact H|].
    exists []. split; [reflexivity|constructor].
  - destruct (p c) eqn:Hc.
    + destruct (many p (c :: bef) t cs k) eqn:Hm.
      * intros [= ->]. destruct (IH _ Hm) as [st' [Hk [u [E F]]]].
        exists st'. split; [exact Hk|]. exists (c :: u). split.
        -- rewrite E. reflexivity.
        -- constructor; assumption.
      * intros H. eexists. split; [exact H|].
        exists []. split; [reflexivity|constructor].
    + intros H. eexists. split; [exact H|].
      exists []. split; [reflexivity|constructor].
Qed.

(** A successful run reaches its continuation after consuming characters
    of the pattern's classes only. *)
Lemma run_advanced r : forall st k m,
  run r st k = Some m ->
  exists st', k st' = Some m /\ advanced (alphabet r) st st'.
Proof.
  induction r as [|p|r1 IH1 r2 IH2|r1 IH1 r2 IH2|r1 IH1|n r1 IH1|p|i r1 IH1| |];
    intros st k m.
  - simpl. intros H. exists st. split; [exact H | apply advanced_refl].
  - simpl. destruct (rest st) as [|c t] eqn:E; [discriminate|].
    destruct (p c) eqn:Hc; [|discriminate].
    intros H. eexists. split; [exact H|].
    exists [c]. split; [exact E|]. constructor; [exact Hc | constructor].
  - simpl. intros H.
    destruct (IH1 _ _ _ H) as [st1 [H1 A1]].
    destruct (IH2 _ _ _ H1) as [st2 [H2 A2]].
    exists st2. split; [exact H2|].
    eapply advanced_trans; [| |exact A1|exact A2]; intros c Hc; simpl;
      rewrite Hc; auto using orb_true_r.
  - simpl. destruct (run r1 st k) eqn:E1.
    + intros [= ->]. destruct (IH1 _ _ _ E1) as [st1 [H1 A1]].
      exists st1. split; [exact H1|].
      eapply advanced_weaken; [|exact A1]. intros c Hc. simpl. rewrite Hc.
      reflexivity.
    + intros H. destruct (IH2 _ _ _ H) as [st2 [H2 A2]].
      exists st2. split; [exact H2|].
      eapply advanced_weaken; [|exact A2]. intros c Hc. simpl. rewrite Hc.
      apply orb_true_r.
  - simpl. destruct (run r1 st k) eqn:E1.
    + intros [= ->]. exact (IH1 _ _ _ E1).
    + intros H. exists st. split; [exact H | apply advanced_refl].
  - revert st k. induction n as [|n IHn]; intros st k.
    + simpl. intros H. exists st. split; [exact H | apply advanced_refl].
    + change (run (Upto (S n) r1) st k)
        with (match run r1 st (fun st' => run (Upto n r1) st' k) with
              | Some m => Some m
              | None => k st
              end).
      destruct (run r1 st (fun st' => run (Upto n r1) st' k)) eqn:E1.
      * intros [= ->]. destruct (IH1 _ _ _ E1) as [st1 [H1 A1]].
        destruct (IHn _ _ H1) as [st2 [H2 A2]].
        exists st2. split; [exact H2|].
        eapply advanced_trans; [| |exact A1|exact A2]; intros c Hc; exact Hc.
      * intros H. exists st. split; [exact H | apply advanced_refl].
  - simpl. destruct (rest st) as [|c t] eqn:E; [discriminate|].
    destruct (p c) eqn:Hc; [|discriminate].
    intros H. destruct (many_advanced _ _ _ _ _ _ H) as [st' [Hk [u [Eu Fu]]]].
    exists st'. split; [exact Hk|]. exists (c :: u). split.
    + rewrite E, Eu. reflexivity.
    + constructor; assumption.
  - simpl. intros H. destruct (IH1 _ _ _ H) as [st1 [H1 A1]].
    eexists. split; [exact H1|]. exact A1.
  - simpl. destruct (before st); [|discriminate].
    intros H. exists st. split; [exact H | apply advanced_refl].
  - simpl. intros H. exists st. split; [|apply advanced_refl].
    destruct (rest st) as [|c [|? ?]]; try discriminate; [exact H|].
    destruct (c =? 10); [exact H | discriminate].
Qed.

(** A successful run reaches its continuation after consuming a string
    of the pattern's language. *)
Lemma run_sound r : forall st k m,
  run r st k = Some m ->
  exists st' w, k st' = Some m /\ rest st = w ++ rest st' /\ lang r w.
Proof.
  induction r as [|p|r1 IH1 r2 IH2|r1 IH1 r2 IH2|r1 IH1|n r1 IH1|p|i r1 IH1| |];
    intros st k m.
  - simpl. intros H. exists st, []. auto.
  - simpl. destruct (rest st) as [|c t] eqn:E; [discriminate|].
    destruct (p c) eqn:Hc; [|discriminate].
    intros H. eexists _, [c]. split; [exact H|]. split; [reflexivity|].
    exists c. auto.
  - simpl. intros H.
    destruct (IH1 _ _ _ H) as [st1 [w1 [H1 [E1 L1]]]].
    destruct (IH2 _ _ _ H1) as [st2 [w2 [H2 [E2 L2]]]].
    exists st2, (w1 ++ w2). split; [exact H2|]. split.
    + rewrite E1, E2, app_assoc. reflexivity.
    + exists w1, w2. auto.
  - simpl. destruct (run r1 st k) eqn:E1.
    + intros [= ->]. destruct (IH1 _ _ _ E1) as [st1 [w1 [H1 [E L1]]]].
      exists st1, w1. auto.
    + intros H. destruct (IH2 _ _ _ H) as [st2 [w2 [H2 [E L2]]]].
      exists st2, w2. auto.
  - simpl. destruct (run r1 st k) eqn:E1.
    + intros [= ->]. destruct (IH1 _ _ _ E1) as [st1 [w1 [H1 [E L1]]]].
      exists st1, w1. auto.
    + intros H. exists st, []. auto.
  - revert st k. induction n as [|n IHn]; intros st k.
    + simpl. intros H. exists st, []. split; [exact H|].
      split; [reflexivity|]. exists []. auto.
    + change (run (Upto (S n) r1) st k)
        with (match run r1 st (fun st' => run (Upto n r1) st' k) with
              | Some m => Some m
              | None => k st
              end).
      destruct (run r1 st (fun st' => run (Upto n r1) st' k)) eqn:E1.
      * intros [= ->]. destruct (IH1 _ _ _ E1) as [st1 [w1 [H1 [Ew1 L1]]]].
        destruct (IHn _ _ H1) as [st2 [w2 [H2 [Ew2 [us [Hl [F ->]]]]]]].
        exists st2, (w1 ++ concat us). split; [exact H2|]. split.
        -- rewrite Ew1, Ew2, app_assoc. reflexivity.
        -- exists (w1 :: us). split; [simpl; lia|].
           split; [constructor; assumption | reflexivity].
      * intros H. exists st, []. split; [exact H|].
        split; [reflexivity|]. exists []. split; [simpl; lia|]. auto.
  - simpl. destruct (rest st) as [|c t] eqn:E; [discriminate|].
    destruct (p c) eqn:Hc; [|discriminate].
    intros H. destruct (many_advanced _ _ _ _ _ _ H) as [st' [Hk [u [Eu Fu]]]].
    exists st', (c :: u). split; [exact Hk|]. split.
    + rewrite Eu. reflexivity.
    + split; [discriminate | constructor; assumption].
  - simpl. intros H. destruct (IH1 _ _ _ H) as [st1 [w1 [H1 [E L1]]]].
    eexists _, w1. split; [exact H1|]. split; [exact E | exact L1].
  - simpl. destruct (before st); [|discriminate].
    intros H. exists st, []. auto.
  - simpl. intros H. exists st, []. split; [|auto].
    destruct (rest st) as [|c [|? ?]]; try discriminate; [exact H|].
    destruct (c =? 10); [exact H | discriminate].
Qed.

End ReFacts.

(* ===================================================================== *)
(** * Properties of the name normaliser *)
(* ===================================================================== *)

Section NameFacts.
Context (rt : Runtime).

Lemma class_not_quote c :
  is_letter c || is_dot_or_space c || is_dot c = true -> is_quote c = false.
Proof.
  unfold is_letter, is_upper, is_lower, is_dot_or_space, is_dot,
    is_quote, squote, dquote.
  rewrite !orb_true_iff, !andb_true_iff, !N.leb_le, !N.eqb_eq,
    orb_false_iff, !N.eqb_neq.
  lia.
Qed.

Lemma quote_kinds c :
  is_quote c = false -> is_dquote c = false /\ is_squote c = false.
Proof.
  unfold is_quote, is_dquote, is_squote. rewrite orb_false_iff. tauto.
Qed.

Lemma space_not_quote c : isspace c = true -> is_quote c = false.
Proof.
  unfold isspace, is_quote, squote, dquote.
  rewrite !orb_true_iff, !andb_true_iff, !N.leb_le, !N.eqb_eq,
    orb_false_iff, !N.eqb_neq.
  lia.
Qed.

(** A string the initials pattern matches holds no quote character. *)
Lemma initials_no_quote s m :
  re_match initials_re s = Some m -> Forall (fun c => is_quote c = false) s.
Proof.
  unfold re_match. intros H.
  set (X := Cat Bol (Cat (Cls is_letter)
             (Cat (Upto 2 (Cat (Opt (Cls is_dot_or_space)) (Cls is_letter)))
                  (Opt (Cls is_dot))))).
  change (run X (MState [] s []) (fun st' => run Eol st' Some) = Some m) in H.
  destruct (run_advanced _ _ _ _ H) as [st' [HE [used [E F]]]].
  simpl in E. subst s. apply Forall_app. split.
  - eapply Forall_impl; [exact F|]. intros c Hc. apply class_not_quote.
    unfold X in Hc. simpl in Hc.
    destruct (is_letter c), (is_dot_or_space c), (is_dot c);
      simpl in *; congruence.
  - simpl in HE. destruct (rest st') as [|c [|? ?]]; try discriminate.
    + constructor.
    + destruct (c =? 10) eqn:E10; [|discriminate].
      apply N.eqb_eq in E10. subst c. repeat constructor.
Qed.

(** The search finds the text between the first two quote characters,
    whichever kinds they are of, when that text is not empty. *)
Lemma search_quoted pre q1 body q2 post : forall bef,
  Forall (fun c => is_quote c = false) pre ->
  is_quote q1 = true -> body <> [] ->
  Forall (fun c => is_quote c = false) body ->
  is_quote q2 = true ->
  exists m, search_from quote_re bef (pre ++ q1 :: body ++ q2 :: post) = Some m
            /\ caps m = [(1%nat, body)].
Proof.
  intros bef Hpre Hq1 Hne Hbody Hq2. revert bef.
  induction Hpre as [|c pre Hc _ IH]; intros bef.
  - destruct body as [|b body]; [contradiction|].
    inversion Hbody as [|? ? Hb Hbody']; subst.
    assert (Hrun :
              run quote_re (MState bef (q1 :: (b :: body) ++ q2 :: post) [])
                Some
              = Some (MState (q2 :: rev body ++ b :: q1 :: bef) post
                             [(1%nat, b :: body)])).
    { unfold quote_re. simpl. rewrite Hq1. unfold not_quote at 1.
      rewrite Hb. simpl.
      erewrite many_greedy; [reflexivity|..].
      - eapply Forall_impl; [exact Hbody'|]. intros x Hx. unfold not_quote.
        rewrite Hx. reflexivity.
      - unfold not_quote. rewrite Hq2. reflexivity.
      - unfold set_group. simpl. rewrite Hq2. repeat f_equal.
        rewrite length_app. simpl.
        replace (length body + S (length post) - length post)%nat
          with (S (length body)) by lia.
        simpl. f_equal. rewrite take_app_length. reflexivity. }
    exists (MState (q2 :: rev body ++ b :: q1 :: bef) post [(1%nat, b :: body)]).
    split; [|reflexivity].
    simpl app. unfold search_from. simpl app in Hrun. rewrite Hrun. reflexivity.
  - destruct (quote_kinds c Hc) as [Hd Hs].
    destruct (IH (c :: bef)) as [m [Hm Hcaps]].
    exists m. split; [|exact Hcaps].
    simpl app. simpl search_from.
    unfold quote_re at 1. simpl run. rewrite Hc, Hd, Hs. exact Hm.
Qed.

Lemma letter_classes c :
  is_letter c = true -> is_dot_or_space c = false /\ is_dot c = false.
Proof.
  unfold is_letter, is_upper, is_lower, is_dot_or_space, is_dot.
  rewrite !orb_true_iff, !andb_true_iff, !N.leb_le,
    orb_false_iff, !N.eqb_neq.
  lia.
Qed.

(** A trimmed name the initials pattern matches has the form of
    initials. *)
Lemma initials_match_form (s : pystr) m :
  re_match initials_re (strip s) = Some m -> initials_form (strip s).
Proof.
  unfold re_match. intros Hm.
  set (X := Cat Bol (Cat (Cls is_letter)
             (Cat (Upto 2 (Cat (Opt (Cls is_dot_or_space)) (Cls is_letter)))
                  (Opt (Cls is_dot))))) in *.
  change (run X (MState [] (strip s) []) (fun st' => run Eol st' Some)
          = Some m) in Hm.
  destruct (run_sound _ _ _ _ Hm) as [st' [w [HE [E L]]]].
  simpl in E.
  assert (Hrest : rest st' = []).
  { simpl in HE. destruct (rest st') as [|c [|? ?]]; try discriminate;
      [reflexivity|].
    destruct (c =? 10) eqn:E10; [|discriminate].
    apply N.eqb_eq in E10. subst c.
    pose proof (strip_last _ _ _ E) as Hsp. vm_compute in Hsp.
    discriminate. }
  rewrite Hrest, app_nil_r in E. rewrite E. clear E Hrest HE Hm.
  unfold X in L. simpl in L.
  destruct L as [u [v [-> [-> [u0 [v0 [-> [[a [-> Ha]]
                  [u1 [v1 [-> [[us [Hl [F ->]]] Hd]]]]]]]]]]]].
  exists a, us, v1. split; [reflexivity|]. split; [exact Ha|].
  split; [exact Hl|]. split.
  - eapply Forall_impl; [exact F|]. simpl.
    intros g [p [q [-> [Hp [b [-> Hb]]]]]]. exists b. split; [exact Hb|].
    destruct Hp as [-> | [sep [-> Hsep]]]; [left; reflexivity|].
    right. exists sep. split; [exact Hsep | reflexivity].
  - destruct Hd as [-> | [c [-> Hc]]]; [left; reflexivity|].
    right. apply N.eqb_eq in Hc. subst c. reflexivity.
Qed.

(** A string of the form of initials matches the pattern. *)
Lemma initials_form_match (t : pystr) :
  initials_form t -> is_Some (re_match initials_re t).
Proof.
  intros [a [gs [dot [-> [Ha [L [F Hd]]]]]]].
  destruct gs as [|g1 [|g2 [|g3 gs]]]; simpl in L; try lia;
    repeat match goal with
           | H : Forall _ (_ :: _) |- _ => inversion H; subst; clear H
           end;
    repeat match goal with
           | H : next_initial _ |- _ =>
               destruct H as [? [? [-> | [? [? ->]]]]]
           end;
    destruct Hd as [-> | ->];
    repeat match goal with
           | H : is_letter ?x = true |- _ =>
               destruct (letter_classes x H) as [? ?]; revert H
           end;
    intros; unfold re_match, initials_re; simpl;
    repeat match goal with
           | H : _ = _ |- _ => rewrite H; simpl
           end;
    eexists; reflexivity.
Qed.

(** In a trimmed name that is quoted so, the initials pattern finds
    nothing and the search finds the text between the first two quote
    characters. *)
Lemma quoted_name_found (name pre body post : pystr) (q1 q2 : char) :
  name = pre ++ q1 :: body ++ q2 :: post ->
  Forall (fun c => is_quote c = false) pre ->
  is_quote q1 = true -> body <> [] ->
  Forall (fun c => is_quote c = false) body ->
  is_quote q2 = true ->
  re_match initials_re name = None
  /\ exists m, re_search quote_re name = Some m
               /\ first_not_none (groups 3 m) = Some body.
Proof.
  intros E Hpre Hq1 Hne Hbody Hq2. split.
  - destruct (re_match initials_re name) as [m0|] eqn:Hi; [|reflexivity].
    exfalso. apply initials_no_quote in Hi. rewrite E in Hi.
    apply Forall_app in Hi. destruct Hi as [_ Hi].
    inversion Hi; subst. congruence.
  - unfold re_search. rewrite E.
    destruct (search_quoted pre q1 body q2 post [] Hpre Hq1 Hne Hbody Hq2)
      as [m [Hm Hc]].
    exists m. split; [exact Hm|].
    unfold groups. rewrite Hc. reflexivity.
Qed.

End NameFacts.

(** C2 (as amended).  A name is classified as initials exactly when
    its trimmed form is one to three letters, each after the first
    optionally preceded by one period or one space, with an optional
    period at the end, and nothing else; such a name is returned trimmed
    with isConfident = false.  One to three letters in a row have this
    form, so that a plain short name is classified as initials as well. *)
Theorem initials_returned_trimmed (rt : Runtime) (s : pystr) :
  (is_initials rt (PStr s) = true <-> initials_form (strip s))
  /\ (initials_form (strip s) ->
      clean_first_name rt (PStr s) = Ok (PStr (strip s), false))
  /\ (Forall (fun c => is_letter c = true) (strip s) ->
      (1 <= length (strip s) <= 3)%nat ->
      initials_form (strip s)).
Proof.
  assert (Hiff : is_initials rt (PStr s) = true <-> initials_form (strip s)).
  { unfold is_initials. simpl. split.
    - destruct (re_match initials_re (strip s)) as [m|] eqn:Hm;
        [intros _ | discriminate].
      exact (initials_match_form s m Hm).
    - intros H. destruct (initials_form_match _ H) as [m Hm].
      rewrite Hm. reflexivity. }
  split; [exact Hiff|]. split.
  - intros H. apply Hiff in H. unfold clean_first_name. simpl.
    unfold is_initials in *. simpl in *. rewrite strip_idemp, H.
    reflexivity.
  - intros F L.
    destruct (strip s) as [|a [|b [|c [|d t]]]]; simpl in L; try lia;
      repeat match goal with
             | H : Forall _ (_ :: _) |- _ => inversion H; subst; clear H
             end.
    + exists a, [], []. repeat split; auto.
    + exists a, [[b]], []. repeat split; auto.
      repeat constructor. exists b. auto.
    + exists a, [[b]; [c]], []. repeat split; auto.
      repeat constructor; [exists b | exists c]; auto.
Qed.

Lemma initials_returned_trimmed_witness :
  initials_form (strip (str " A.B. "))
  /\ clean_first_name ascii_runtime (PStr (str " A.B. "))
     = Ok (PStr (str "A.B."), false)
  /\ ~ initials_form (strip (str "maria garcia"))
  /\ initials_form (strip (str "Bob")).
Proof.
  assert (H1 : initials_form (strip (str " A.B. "))).
  { apply (proj1 (proj1 (initials_returned_trimmed ascii_runtime
                           (str " A.B. ")))).
    vm_compute. reflexivity. }
  split; [exact H1|]. split; [|split].
  - exact (proj1 (proj2 (initials_returned_trimmed ascii_runtime
                           (str " A.B. "))) H1).
  - intros H.
    apply (proj2 (proj1 (initials_returned_trimmed ascii_runtime
                           (str "maria garcia")))) in H.
    vm_compute in H. discriminate.
  - apply (proj2 (proj2 (initials_returned_trimmed ascii_runtime
                           (str "Bob")))).
    + vm_compute. repeat constructor.
    + vm_compute. lia.
Defined.

(** C2 as stated fails: the plain short name Bob is classified as
    initials and comes back flagged; and initials given between spaces
    come back without the spaces, not unchanged. *)
Lemma short_name_is_initials :
  is_initials ascii_runtime (PStr (str "Bob")) = true
  /\ clean_first_name ascii_runtime (PStr (str "Bob"))
     = Ok (PStr (str "Bob"), false)
  /\ clean_first_name ascii_runtime (PStr (str " A.B. "))
     = Ok (PStr (str "A.B."), false)
  /\ str " A.B. " <> str "A.B.".
Proof. repeat split; vm_compute; (reflexivity || discriminate). Qed.

(** C3 (the code at the failing inputs).  An empty or whitespace-only
    name is not returned unchanged: after trimming, [split()] yields no
    field and taking the first one raises IndexError. *)
Theorem blank_name_raises (rt : Runtime) (s : pystr) :
  Forall (fun c => isspace c = true) s ->
  clean_first_name rt (PStr s) = Raise IndexError.
Proof.
  intros H. unfold clean_first_name, is_initials. simpl.
  rewrite (strip_spaces s H). reflexivity.
Qed.

Lemma blank_name_raises_witness :
  Forall (fun c => isspace c = true) (str "   ")
  /\ clean_first_name ascii_runtime (PStr (str "   ")) = Raise IndexError.
Proof.
  split.
  - repeat constructor.
  - apply (blank_name_raises ascii_runtime (str "   ")). repeat constructor.
Defined.

(** C4 (as amended).  When the first two straight quote characters of
    the trimmed name, single or double and not necessarily of the same
    kind, enclose a text that is not empty, that text is returned trimmed
    with isConfident = true. *)
Theorem quoted_nickname_extracted (rt : Runtime)
    (s pre body post : pystr) (q1 q2 : char) :
  strip s = pre ++ q1 :: body ++ q2 :: post ->
  Forall (fun c => is_quote c = false) pre ->
  is_quote q1 = true -> body <> [] ->
  Forall (fun c => is_quote c = false) body ->
  is_quote q2 = true ->
  clean_first_name rt (PStr s) = Ok (PStr (strip body), true).
Proof.
  intros E Hpre Hq1 Hne Hbody Hq2.
  destruct (quoted_name_found (strip s) pre body post q1 q2
              E Hpre Hq1 Hne Hbody Hq2) as [Hi [m [Hm Hg]]].
  unfold clean_first_name, is_initials. cbn [pd_isna py_str].
  rewrite strip_idemp, Hi, Hm, Hg.
  destruct body; [contradiction | reflexivity].
Qed.

Lemma quoted_nickname_extracted_witness :
  clean_first_name ascii_runtime
    (PStr (str "Wen Jing " ++ dquote :: str "David" ++ dquote :: []))
  = Ok (PStr (str "David"), true).
Proof.
  apply (quoted_nickname_extracted ascii_runtime _
           (str "Wen Jing ") (str "David") [] dquote dquote).
  - vm_compute. reflexivity.
  - repeat constructor.
  - reflexivity.
  - discriminate.
  - repeat constructor.
  - reflexivity.
Defined.

(** C4 as stated fails: a single quote and a double quote do not match
    as a pair, and the text between them is extracted all the same; and a
    nickname between curly double quotes (U+201C, U+201D) is not
    extracted. *)
Lemma mismatched_quotes_extracted :
  length (List.filter is_squote (str "Wen 'David" ++ [dquote])) = 1%nat
  /\ length (List.filter is_dquote (str "Wen 'David" ++ [dquote])) = 1%nat
  /\ clean_first_name ascii_runtime (PStr (str "Wen 'David" ++ [dquote]))
     = Ok (PStr (str "David"), true)
  /\ clean_first_name ascii_runtime
       (PStr (str "Wen " ++ 8220 :: str "David" ++ [8221]))
     = Ok (PStr (str "Wen"), true).
Proof. repeat split; vm_compute; reflexivity. Qed.

(** C10.  When the text between the first two quote characters is
    whitespace only, the cleaned name is the empty string with
    isConfident = true, and [clean_and_track] hands it back for the
    column without adding an entry to the invalid names. *)
Theorem blank_nickname_accepted (rt : Runtime)
    (s pre body post : pystr) (q1 q2 : char)
    (cols : list pystr) (row : list pyval) (invalid : list InvalidName) :
  strip s = pre ++ q1 :: body ++ q2 :: post ->
  Forall (fun c => is_quote c = false) pre ->
  is_quote q1 = true -> body <> [] ->
  Forall (fun c => isspace c = true) body ->
  is_quote q2 = true ->
  row_get cols row (str "First Name") = Ok (PStr s) ->
  clean_first_name rt (PStr s) = Ok (PStr [], true)
  /\ clean_and_track rt cols row invalid = Ok (PStr [], invalid).
Proof.
  intros E Hpre Hq1 Hne Hsp Hq2 Hrow.
  assert (Hbody : Forall (fun c => is_quote c = false) body).
  { eapply Forall_impl; [exact Hsp|]. apply space_not_quote. }
  destruct (quoted_name_found (strip s) pre body post q1 q2
              E Hpre Hq1 Hne Hbody Hq2) as [Hi [m [Hm Hg]]].
  assert (H : clean_first_name rt (PStr s) = Ok (PStr [], true)).
  { unfold clean_first_name, is_initials. cbn [pd_isna py_str].
    rewrite strip_idemp, Hi, Hm, Hg, (strip_spaces body Hsp).
    destruct body; [contradiction | reflexivity]. }
  split; [exact H|].
  unfold clean_and_track. rewrite Hrow. simpl. rewrite H. reflexivity.
Qed.

Lemma blank_nickname_accepted_witness :
  clean_first_name ascii_runtime
    (PStr (str "A " ++ dquote :: str " " ++ dquote :: str " B"))
  = Ok (PStr [], true)
  /\ clean_and_track ascii_runtime [str "First Name"; str "Email"]
       [PStr (str "A " ++ dquote :: str " " ++ dquote :: str " B");
        PStr (str "a@x.com")] []
     = Ok (PStr [], []).
Proof.
  apply (blank_nickname_accepted ascii_runtime _
           (str "A ") (str " ") (str " B") dquote dquote).
  - vm_compute. reflexivity.
  - repeat constructor.
  - reflexivity.
  - discriminate.
  - repeat constructor.
  - reflexivity.
  - vm_compute. reflexivity.
Defined.

(* ===================================================================== *)
(** * Properties of the e-mail validator *)
(* ===================================================================== *)

Section ValidatorFacts.
Context (rt : Runtime).

Lemma bind_Ok {A B} (r : result A) (k : A -> result B) (b : B) :
  r ≫= k = Ok b -> exists a, r = Ok a /\ k a = Ok b.
Proof.
  destruct r as [a|e]; simpl; [|discriminate].
  intros H. exists a. split; [reflexivity | exact H].
Qed.

(** One statement of a block that ran to its end: name its value [x]
    and the equation [E] that gave it. *)
Tactic Notation "step" hyp(H) ident(x) ident(E) :=
  apply bind_Ok in H; destruct H as [x [E H]].

Lemma or_false_true (x : result pyval) :
  or_false x = PBool true -> x = Ok (PBool true).
Proof. destruct x; simpl; [congruence | discriminate]. Qed.

Lemma py_get_Ok (v : pyval) key dflt x :
  py_get v key dflt = Ok x ->
  exists d, v = PDict d /\ x = default dflt (assoc key d).
Proof.
  destruct v; simpl; try discriminate.
  intros [= <-]. eexists. split; reflexivity.
Qed.

(** [float] reads the score as the specification does. *)
Lemma py_float_score d q :
  py_float rt (default (PInt 0) (assoc (str "quality_score") d)) = Ok q
  <-> score_number rt d = Some q.
Proof.
  unfold score_number.
  destruct (assoc (str "quality_score") d) as [[| [|] |z|f|s|l|d']|]; simpl;
    try (split; intros H; try discriminate; injection H as <-; reflexivity).
  - unfold float_of_int.
    destruct (binary_normalize FloatOps.prec FloatOps.emax z 0 false);
      split; intros H; try discriminate; injection H as <-; reflexivity.
  - destruct (float_of_str rt s); split; intros H; try discriminate;
      injection H as <-; reflexivity.
Qed.

Lemma deliverable_test (d : list (pystr * pyval)) :
  match default PNone (assoc (str "deliverability") d) with
  | PStr s => Str.eqb s (str "DELIVERABLE")
  | _ => false
  end = true
  <-> is_deliverable d.
Proof.
  unfold is_deliverable.
  destruct (assoc (str "deliverability") d) as [[| | | |sd| |]|]; simpl;
    try (split; intros H; discriminate).
  unfold Str.eqb. rewrite bool_decide_eq_true.
  split; [intros -> | intros [= ->]]; reflexivity.
Qed.

Lemma check_deliverable_true (r : response) :
  or_false (check_deliverable rt r) = PBool true <-> keep_rule rt r.
Proof.
  unfold check_deliverable, keep_rule, score_above, format_valid. split.
  - intros H. apply or_false_true in H.
    step H data Ej. step H dv Ed. step H sc Es. step H q Eq.
    step H fm Ef. step H vv Ev.
    apply py_get_Ok in Ed. destruct Ed as [d [-> Ed]].
    apply py_get_Ok in Es. destruct Es as [d1 [[= <-] Es]].
    apply py_get_Ok in Ef. destruct Ef as [d2 [[= <-] Ef]].
    apply py_get_Ok in Ev. destruct Ev as [f [-> Ev]].
    subst dv sc.
    destruct (match default PNone (assoc (str "deliverability") d) with
              | PStr s => Str.eqb s (str "DELIVERABLE")
              | _ => false
              end) eqn:Esd; [|discriminate].
    destruct (0.7 <? q)%float eqn:Et; [|discriminate].
    injection H as ->.
    exists d. split; [exact Ej|]. split; [|split].
    + apply deliverable_test. exact Esd.
    + exists q. split; [apply py_float_score; exact Eq | exact Et].
    + exists f.
      destruct (assoc (str "is_valid_format") d) as [fv|]; simpl in Ef.
      * subst fv. split; [reflexivity|].
        destruct (assoc (str "value") f); simpl in Ev; congruence.
      * injection Ef as Ef. subst f. simpl in Ev. discriminate.
  - intros [d [Ej [Ed [[q [Eq Et]] [f [Ef Ev]]]]]].
    apply py_float_score in Eq. apply deliverable_test in Ed.
    rewrite Ej. simpl. rewrite Eq. simpl.
    rewrite Ef. simpl. rewrite Ev. simpl. rewrite Ed, Et. reflexivity.
Qed.

(** A response that is not deliverable, or whose score is not above
    the threshold, is rejected whatever else it holds. *)
Lemma check_deliverable_false (r : response) d :
  json r = Ok (PDict d) ->
  ~ (is_deliverable d /\ score_above rt d) ->
  or_false (check_deliverable rt r) = PBool false.
Proof.
  intros Ej Hn. unfold check_deliverable. rewrite Ej. simpl.
  destruct (py_float rt (default (PInt 0) (assoc (str "quality_score") d)))
    as [q|] eqn:Eq; simpl; [|reflexivity].
  destruct (py_get _ _ _) as [vv|]; simpl; [|reflexivity].
  destruct (match default PNone (assoc (str "deliverability") d) with
            | PStr s => Str.eqb s (str "DELIVERABLE")
            | _ => false
            end) eqn:Esd; [|reflexivity].
  destruct (0.7 <? q)%float eqn:Et; [|reflexivity].
  exfalso. apply Hn. split.
  - apply deliverable_test. exact Esd.
  - exists q. split; [apply py_float_score; exact Eq | exact Et].
Qed.

Lemma rate_limit_status (r : response) :
  is_rate_limit (Answer r) <-> status_code r = 429%Z.
Proof.
  split.
  - intros [r' [[= <-] H]]. exact H.
  - intros H. exists r. split; [reflexivity | exact H].
Qed.

(** An answer other than the rate-limit one is answered by one
    request, whatever the room. *)
Lemma validate_email_at_single email api_key rep net :
  ~ is_rate_limit rep ->
  exists v, forall room,
    validate_email_at rt (S room) email api_key (rep :: net)
    = Some (v, [Get (validation_url rt email api_key)], net).
Proof.
  intros Hn. destruct rep as [r|]; simpl; [|eauto].
  destruct (status_code r =? 200)%Z; [eauto|].
  destruct (Z.eqb_spec (status_code r) 429) as [E|_].
  - exfalso. apply Hn. apply rate_limit_status. exact E.
  - destruct (status_code r =? 422)%Z; eauto.
Qed.



End ValidatorFacts.

(** C1.  On a response with status 200 the validator makes the one
    request and returns [True] exactly when the decision rule holds of the
    fields of the response: deliverability DELIVERABLE, quality score, as
    a number, above 0.7, and format reported valid.  A response without a
    quality score, one that is not deliverable and one whose score is not
    above 0.7 make it return [False]. *)
Theorem validate_email_decision (rt : Runtime) (email : pyval)
    (api_key : pystr) (r : response) (net : list reply) :
  status_code r = 200%Z ->
  exists v,
    validate_email rt email api_key (Answer r :: net)
    = Some (v, [Get (validation_url rt email api_key)], net)
    /\ (v = PBool true <-> keep_rule rt r)
    /\ (forall d, json r = Ok (PDict d) ->
                  assoc (str "quality_score") d = None -> v = PBool false)
    /\ (forall d, json r = Ok (PDict d) ->
                  ~ (is_deliverable d /\ score_above rt d) -> v = PBool false).
Proof.
  intros Hs. exists (or_false (check_deliverable rt r)).
  split; [|split; [|split]].
  - unfold validate_email. simpl. rewrite Hs. reflexivity.
  - apply check_deliverable_true.
  - intros d Ej Es. apply (check_deliverable_false rt r d Ej).
    intros [_ [q [Eq Et]]]. unfold score_number in Eq. rewrite Es in Eq.
    injection Eq as <-. vm_compute in Et. discriminate.
  - intros d Ej Hn. exact (check_deliverable_false rt r d Ej Hn).
Qed.

(** The value returned, at a score given as a float, as an integer and
    as a text, at the threshold itself, and without the field. *)
Lemma validate_email_decision_witness :
  validate_email ascii_runtime (PStr (str "a@x.com")) sample_key
    [Answer good_response]
  = Some (PBool true,
          [Get (validation_url ascii_runtime (PStr (str "a@x.com"))
                  sample_key)], [])
  /\ validate_email ascii_runtime (PStr (str "a@x.com")) sample_key
       [Answer (scored_response (Some (PInt 1)))]
     = Some (PBool true,
             [Get (validation_url ascii_runtime (PStr (str "a@x.com"))
                     sample_key)], [])
  /\ validate_email table_runtime (PStr (str "a@x.com")) sample_key
       [Answer (scored_response (Some (PStr (str "0.95"))))]
     = Some (PBool true,
             [Get (validation_url table_runtime (PStr (str "a@x.com"))
                     sample_key)], [])
  /\ validate_email table_runtime (PStr (str "a@x.com")) sample_key
       [Answer (scored_response (Some (PStr (str "0.50"))))]
     = Some (PBool false,
             [Get (validation_url table_runtime (PStr (str "a@x.com"))
                     sample_key)], [])
  /\ validate_email ascii_runtime (PStr (str "a@x.com")) sample_key
       [Answer (scored_response (Some (PFloat 0.7)))]
     = Some (PBool false,
             [Get (validation_url ascii_runtime (PStr (str "a@x.com"))
                     sample_key)], [])
  /\ validate_email ascii_runtime (PStr (str "a@x.com")) sample_key
       [Answer (scored_response None)]
     = Some (PBool false,
             [Get (validation_url ascii_runtime (PStr (str "a@x.com"))
                     sample_key)], []).
Proof.
  assert (Kept : forall rt r d q f,
            json r = Ok (PDict d) ->
            assoc (str "deliverability") d = Some (PStr (str "DELIVERABLE")) ->
            score_number rt d = Some q -> (0.7 <? q)%float = true ->
            assoc (str "is_valid_format") d = Some (PDict f) ->
            assoc (str "value") f = Some (PBool true) ->
            keep_rule rt r).
  { intros rt r d q f Ej Ed Es Et Ef Ev. exists d. split; [exact Ej|].
    split; [exact Ed|]. split; [exists q | exists f]; split; assumption. }
  assert (Low : forall rt d q,
            score_number rt d = Some q -> (0.7 <? q)%float = false ->
            ~ (is_deliverable d /\ score_above rt d)).
  { intros rt d q Es Et [_ [q' [Es' Et']]]. congruence. }
  refine (conj _ (conj _ (conj _ (conj _ (conj _ _))))).
  - destruct (validate_email_decision ascii_runtime (PStr (str "a@x.com"))
                sample_key good_response [] eq_refl) as [v [E [Hk _]]].
    rewrite E. rewrite (proj2 Hk); [reflexivity|].
    eapply (Kept _ _ _ 0.95%float); reflexivity.
  - destruct (validate_email_decision ascii_runtime (PStr (str "a@x.com"))
                sample_key (scored_response (Some (PInt 1))) [] eq_refl)
      as [v [E [Hk _]]].
    rewrite E. rewrite (proj2 Hk); [reflexivity|].
    eapply (Kept _ _ _ 1%float); reflexivity.
  - destruct (validate_email_decision table_runtime (PStr (str "a@x.com"))
                sample_key (scored_response (Some (PStr (str "0.95")))) []
                eq_refl) as [v [E [Hk _]]].
    rewrite E. rewrite (proj2 Hk); [reflexivity|].
    eapply (Kept _ _ _ 0.95%float); reflexivity.
  - destruct (validate_email_decision table_runtime (PStr (str "a@x.com"))
                sample_key (scored_response (Some (PStr (str "0.50")))) []
                eq_refl) as [v [E [_ [_ Hl]]]].
    rewrite E. rewrite (Hl _ eq_refl); [reflexivity|].
    apply (Low _ _ 0.5%float); reflexivity.
  - destruct (validate_email_decision ascii_runtime (PStr (str "a@x.com"))
                sample_key (scored_response (Some (PFloat 0.7))) [] eq_refl)
      as [v [E [_ [_ Hl]]]].
    rewrite E. rewrite (Hl _ eq_refl); [reflexivity|].
    apply (Low _ _ 0.7%float); reflexivity.
  - destruct (validate_email_decision ascii_runtime (PStr (str "a@x.com"))
                sample_key (scored_response None) [] eq_refl)
      as [v [E [_ [Hm _]]]].
    rewrite E. rewrite (Hm _ eq_refl); reflexivity.
Defined.




(** C6.  A transport exception, a response with status 422 and a
    response with any status other than 200 and 429 end the call: it
    returns [False] after its one request, with no wait and no further
    request. *)
Theorem failure_not_retried (rt : Runtime) (email : pyval) (api_key : pystr)
    (rep : reply) (net : list reply) :
  rep = Failure
  \/ (exists r, rep = Answer r
               /\ status_code r <> 200%Z /\ status_code r <> 429%Z) ->
  validate_email rt email api_key (rep :: net)
  = Some (PBool false, [Get (validation_url rt email api_key)], net).
Proof.
  unfold validate_email.
  intros [-> | [r [-> [H200 H429]]]]; simpl; [reflexivity|].
  apply Z.eqb_neq in H200, H429. rewrite H200, H429.
  destruct (status_code r =? 422)%Z; reflexivity.
Qed.

Lemma failure_not_retried_witness :
  validate_email ascii_runtime (PStr (str "a@x.com")) sample_key
    [Answer quota_exceeded; Answer good_response]
  = Some (PBool false,
          [Get (validation_url ascii_runtime (PStr (str "a@x.com"))
                  sample_key)],
          [Answer good_response]).
Proof.
  apply (failure_not_retried ascii_runtime (PStr (str "a@x.com")) sample_key
           (Answer quota_exceeded) [Answer good_response]).
  right. exists quota_exceeded.
  split; [reflexivity|]. split; vm_compute; discriminate.
Defined.

(* ===================================================================== *)
(** * Properties of tables and of the pipeline *)
(* ===================================================================== *)

Section FrameFacts.

Lemma eqb_eq (a b : pystr) : Str.eqb a b = true <-> a = b.
Proof. unfold Str.eqb. apply bool_decide_eq_true. Qed.

Lemma index_of_lt name cols i :
  index_of name cols = Some i -> (i < length cols)%nat.
Proof.
  revert i. induction cols as [|c cols IH]; simpl; [discriminate|].
  intros i. destruct (Str.eqb c name).
  - intros [= <-]. lia.
  - destruct (index_of name cols) as [j|]; simpl; [|discriminate].
    intros [= <-]. specialize (IH j eq_refl). lia.
Qed.

Lemma index_of_lookup name cols i :
  index_of name cols = Some i -> cols !! i = Some name.
Proof.
  revert i. induction cols as [|c cols IH]; simpl; [discriminate|].
  intros i. destruct (Str.eqb c name) eqn:E.
  - intros [= <-]. apply eqb_eq in E. subst. reflexivity.
  - destruct (index_of name cols) as [j|]; simpl; [|discriminate].
    intros [= <-]. simpl. apply IH. reflexivity.
Qed.

Lemma index_of_new name cols :
  index_of name cols = None ->
  index_of name (cols ++ [name]) = Some (length cols).
Proof.
  induction cols as [|c cols IH]; simpl.
  - intros _. unfold Str.eqb. rewrite bool_decide_eq_true_2; reflexivity.
  - destruct (Str.eqb c name); [discriminate|].
    destruct (index_of name cols); simpl; [discriminate|].
    intros _. rewrite IH; reflexivity.
Qed.

Lemma index_of_other name other cols :
  index_of name cols = None -> name <> other ->
  index_of name (cols ++ [other]) = None.
Proof.
  intros H Hne. induction cols as [|c cols IH]; simpl in *.
  - unfold Str.eqb. rewrite bool_decide_eq_false_2; [reflexivity|congruence].
  - destruct (Str.eqb c name); [discriminate|].
    destruct (index_of name cols); simpl in *; [discriminate|].
    rewrite IH; reflexivity.
Qed.

Lemma as_mask_Ok tags mask :
  as_mask tags = Ok mask -> tags = map PBool mask.
Proof.
  revert mask. induction tags as [|t tags IH]; simpl; intros mask.
  - intros [= <-]. reflexivity.
  - destruct t; try discriminate.
    destruct (as_mask tags) as [m|]; simpl; [|discriminate].
    intros [= <-]. simpl. rewrite (IH m eq_refl). reflexivity.
Qed.

Lemma as_mask_bools mask : as_mask (map PBool mask) = Ok mask.
Proof.
  induction mask as [|b mask IH]; simpl; [reflexivity|].
  rewrite IH. reflexivity.
Qed.



(** Adding the tags as a new last column, selecting by them and
    dropping the column gives the selected rows of the table as it was. *)
Lemma select_new_column (cols : list pystr) rws mask :
  Forall (fun row : list pyval => length row = length cols) rws ->
  map (delete (length cols))
      (select mask (write_cells None rws (map PBool mask)))
  = select mask rws.
Proof.
  intros Hrect. revert mask.
  induction Hrect as [|row rws Hrow _ IH]; intros [|b mask]; simpl;
    try reflexivity.
  destruct b; simpl; rewrite IH; [|reflexivity].
  f_equal. rewrite <- Hrow.
  rewrite (delete_middle row [] (PBool true)). apply app_nil_r.
Qed.

Lemma write_cells_rect (cols : list pystr) i rws vals :
  Forall (fun row : list pyval => length row = length cols) rws ->
  Forall (fun row : list pyval => length row = length cols)
         (write_cells (Some i) rws vals).
Proof.
  intros H. revert vals. induction H as [|row rws Hrow _ IH];
    intros [|v vals]; simpl; try constructor.
  - rewrite length_insert. exact Hrow.
  - apply IH.
Qed.

Lemma write_cells_length i rws vals :
  length vals = length rws -> length (write_cells i rws vals) = length rws.
Proof.
  revert vals. induction rws as [|row rws IH]; intros [|v vals]; simpl;
    try discriminate; [reflexivity|].
  intros [= H]. rewrite (IH vals H). reflexivity.
Qed.

End FrameFacts.

Section PipelineFacts.
Context (rt : Runtime).

Lemma clean_rows_length cols rws invalid names invalid' :
  clean_rows rt cols rws invalid = Ok (names, invalid') ->
  length names = length rws.
Proof.
  revert invalid names invalid'.
  induction rws as [|row rws IH]; simpl; intros invalid names invalid'.
  - intros [= <- _]. reflexivity.
  - destruct (clean_and_track rt cols row invalid) as [[name inv1]|];
      simpl; [|discriminate].
    destruct (clean_rows rt cols rws inv1) as [[names1 inv2]|] eqn:E;
      simpl; [|discriminate].
    intros [= <- _]. simpl. rewrite (IH _ _ _ E). reflexivity.
Qed.

(** Rows can only be cleaned when the table has the name column. *)
Lemma clean_rows_needs_column cols rws invalid names invalid' :
  clean_rows rt cols rws invalid = Ok (names, invalid') ->
  index_of (str "First Name") cols = None -> rws = [].
Proof.
  destruct rws as [|row rws]; [reflexivity|].
  simpl. unfold clean_and_track, row_get. intros H Hi. rewrite Hi in H.
  discriminate.
Qed.



(** The table after the names are written back: as many rows, still
    one cell per column, and no tag column if there was none. *)
Lemma cleaned_table df names invalid :
  rectangular df ->
  index_of (str "is_valid_email") (columns df) = None ->
  clean_rows rt (columns df) (rows df) [] = Ok (names, invalid) ->
  let cleaned := set_column df (str "First Name") names in
  rectangular cleaned
  /\ length (rows cleaned) = length (rows df)
  /\ index_of (str "is_valid_email") (columns cleaned) = None.
Proof.
  intros Hrect Htag Hclean. unfold set_column, rectangular.
  destruct (index_of (str "First Name") (columns df)) as [i|] eqn:Ei; simpl.
  - split; [|split].
    + apply write_cells_rect. exact Hrect.
    + apply write_cells_length. apply (clean_rows_length _ _ _ _ _ Hclean).
    + exact Htag.
  - rewrite (clean_rows_needs_column _ _ _ _ _ Hclean Ei). simpl.
    split; [constructor|]. split; [reflexivity|].
    apply index_of_other; [exact Htag|]. vm_compute. discriminate.
Qed.

(** The pipeline returns whenever the names can be cleaned, the table
    has the e-mail column and every call of the validator comes back with
    a boolean. *)
Lemma process_csv_returns (df : DataFrame) (api_key : pystr)
    (net : list reply) names invalid emails mask evs net' :
  rectangular df ->
  index_of (str "is_valid_email") (columns df) = None ->
  clean_rows rt (columns df) (rows df) [] = Ok (names, invalid) ->
  column (set_column df (str "First Name") names) (str "Email") = Ok emails ->
  validate_all rt emails api_key net = Some (map PBool mask, evs, net') ->
  process_csv rt df api_key net
  = Some (Ok (Frame (columns (set_column df (str "First Name") names))
                (select mask (rows (set_column df (str "First Name") names))),
              MkReport (length (rows df)) (count_true mask) invalid),
          evs, net').
Proof.
  intros Hrect Htag Ec Ee Ev. unfold process_csv. rewrite Ec. simpl.
  destruct (cleaned_table df names invalid Hrect Htag Ec) as [Hr1 [Hl1 Ht1]].
  set (cleaned := set_column df (str "First Name") names) in *.
  rewrite Ee. simpl. rewrite Ev. simpl.
  unfold select_rows. rewrite as_mask_bools. simpl.
  unfold set_column at 1 2. rewrite Ht1. simpl.
  unfold drop_column. simpl. rewrite (index_of_new _ _ Ht1).
  rewrite (delete_middle (columns cleaned) [] (str "is_valid_email")).
  rewrite app_nil_r, (select_new_column _ _ _ Hr1), Hl1. reflexivity.
Qed.

End PipelineFacts.



(* ===================================================================== *)
(** * Properties of the deduplicator *)
(* ===================================================================== *)

Section DedupeFacts.




(** Where the accessor does not raise, the profiles are the trimmed
    keys. *)
Lemma str_strip_fillna col profiles :
  str_strip (fillna col) = Ok profiles -> profiles = map trimmed_key col.
Proof.
  revert profiles. induction col as [|v col IH]; simpl; intros profiles.
  - intros [= <-]. reflexivity.
  - destruct (pd_isna v) eqn:Ena.
    + destruct (str_strip (fillna col)) as [l|]; simpl; [|discriminate].
      intros [= <-]. rewrite (IH l eq_refl).
      destruct v; try discriminate; reflexivity.
    + destruct v; try discriminate.
      destruct (str_strip (fillna col)) as [l|]; simpl; [|discriminate].
      intros [= <-]. rewrite (IH l eq_refl). reflexivity.
Qed.

Lemma trimmed_key_trimmed v : strip (trimmed_key v) = trimmed_key v.
Proof. destruct v; simpl; try reflexivity. apply strip_idemp. Qed.



Lemma dedupe_csv_result master_df input_df unique_df :
  dedupe_csv master_df input_df = Ok (Some unique_df) ->
  exists i master_col input_col urls,
    index_of (str "LinkedIn Profile") (columns input_df) = Some i
    /\ column master_df (str "LinkedIn URL") = Ok master_col
    /\ column input_df (str "LinkedIn Profile") = Ok input_col
    /\ master_urls master_col = Ok urls
    /\ str_strip (fillna input_col) = Ok (map trimmed_key input_col)
    /\ unique_df
       = Frame (columns input_df)
           (select (unique_mask urls (map trimmed_key input_col))
              (write_cells (Some i) (rows input_df)
                 (map PStr (map trimmed_key input_col)))).
Proof.
  unfold dedupe_csv.
  destruct (index_of (str "LinkedIn URL") (columns master_df)) as [j|] eqn:Ej;
    [|discriminate].
  destruct (index_of (str "LinkedIn Profile") (columns input_df)) as [i|]
    eqn:Ei; [|discriminate].
  destruct (column master_df (str "LinkedIn URL")) as [master_col|] eqn:Em;
    simpl; [|discriminate].
  destruct (master_urls master_col) as [urls|] eqn:Eu; simpl; [|discriminate].
  destruct (column input_df (str "LinkedIn Profile")) as [input_col|] eqn:Ec;
    simpl; [|discriminate].
  destruct (str_strip (fillna input_col)) as [profiles|] eqn:Es; simpl;
    [|discriminate].
  pose proof (str_strip_fillna _ _ Es) as Ep. subst profiles.
  unfold set_column. rewrite Ei. simpl.
  intros [= <-]. exists i, master_col, input_col, urls.
  repeat split; reflexivity || assumption.
Qed.





End DedupeFacts.





(* ===================================================================== *)
(** * Further properties of the name normaliser *)
(* ===================================================================== *)

Section MoreStrFacts.

Lemma split_from_nil (cur s : pystr) :
  split_from cur s = [] -> cur = [] /\ Forall (fun c => isspace c = true) s.
Proof.
  revert cur. induction s as [|c t IH]; simpl; intros cur.
  - destruct cur; [split; [reflexivity | constructor] | discriminate].
  - destruct (isspace c) eqn:E.
    + destruct cur; [|discriminate].
      intros H. destruct (IH _ H) as [_ F]. split; [reflexivity|].
      constructor; assumption.
    + intros H. destruct (IH _ H) as [H1 _]. discriminate.
Qed.

(** The first field of [split]: the characters up to the first
    whitespace. *)
Lemma split_from_word (cur word tail : pystr) :
  Forall (fun c => isspace c = false) word ->
  (tail = [] \/ exists c t, tail = c :: t /\ isspace c = true) ->
  rev cur ++ word <> [] ->
  exists fields, split_from cur (word ++ tail) = (rev cur ++ word) :: fields.
Proof.
  intros Hw Ht. revert cur. induction Hw as [|a word Ha _ IH]; intros cur Hne.
  - rewrite app_nil_r in *. simpl.
    destruct Ht as [-> | [c [t [-> Hc]]]]; simpl.
    + destruct cur; [contradiction | eauto].
    + rewrite Hc. destruct cur; [contradiction | eauto].
  - simpl. rewrite Ha.
    destruct (IH (a :: cur)) as [fields Hf].
    { simpl. rewrite <- app_assoc. simpl. destruct (rev cur); discriminate. }
    exists fields. rewrite Hf. simpl. rewrite <- app_assoc. reflexivity.
Qed.

(** A string splits into its characters before the first whitespace
    and what follows. *)
Lemma first_word (s : pystr) :
  exists word tail,
    s = word ++ tail
    /\ Forall (fun c => isspace c = false) word
    /\ (tail = [] \/ exists c t, tail = c :: t /\ isspace c = true).
Proof.
  induction s as [|a s [word [tail [E [Hw Ht]]]]].
  - exists [], []. split; [reflexivity|]. split; [constructor | left; reflexivity].
  - destruct (isspace a) eqn:Ea.
    + exists [], (a :: s). split; [reflexivity|]. split; [constructor|].
      right. eauto.
    + exists (a :: word), tail. split; [rewrite E; reflexivity|].
      split; [constructor; assumption | exact Ht].
Qed.

End MoreStrFacts.

Section MoreReFacts.

(** A successful run consumes characters of the pattern's classes, and
    no more of them than the pattern's width. *)
Lemma run_bounded r : forall st k m,
  run r st k = Some m ->
  exists st', k st' = Some m /\ advanced (alphabet r) st st'
    /\ (forall w, width r = Some w ->
                  (length (rest st) <= length (rest st') + w)%nat).
Proof.
  induction r as [|p|r1 IH1 r2 IH2|r1 IH1 r2 IH2|r1 IH1|n r1 IH1|p|i r1 IH1| |];
    intros st k m.
  - simpl. intros H. exists st.
    split; [exact H|]. split; [apply advanced_refl|]. intros w [= <-]. lia.
  - simpl. destruct (rest st) as [|c t] eqn:E; [discriminate|].
    destruct (p c) eqn:Hc; [|discriminate].
    intros H. eexists. split; [exact H|]. split.
    + exists [c]. split; [exact E|]. constructor; [exact Hc | constructor].
    + intros w [= <-]. simpl. lia.
  - simpl. intros H.
    destruct (IH1 _ _ _ H) as [st1 [H1 [A1 W1]]].
    destruct (IH2 _ _ _ H1) as [st2 [H2 [A2 W2]]].
    exists st2. split; [exact H2|]. split.
    + eapply advanced_trans; [| |exact A1|exact A2]; intros c Hc; simpl;
        rewrite Hc; auto using orb_true_r.
    + intros w. destruct (width r1) as [a|]; [|discriminate].
      destruct (width r2) as [b|]; [|discriminate].
      intros [= <-]. specialize (W1 a eq_refl). specialize (W2 b eq_refl). lia.
  - simpl. destruct (run r1 st k) eqn:E1.
    + intros [= ->]. destruct (IH1 _ _ _ E1) as [st1 [H1 [A1 W1]]].
      exists st1. split; [exact H1|]. split.
      * eapply advanced_weaken; [|exact A1]. intros c Hc. simpl. rewrite Hc.
        reflexivity.
      * intros w. destruct (width r1) as [a|]; [|discriminate].
        destruct (width r2) as [b|]; [|discriminate].
        intros [= <-]. specialize (W1 a eq_refl). lia.
    + intros H. destruct (IH2 _ _ _ H) as [st2 [H2 [A2 W2]]].
      exists st2. split; [exact H2|]. split.
      * eapply advanced_weaken; [|exact A2]. intros c Hc. simpl. rewrite Hc.
        apply orb_true_r.
      * intros w. destruct (width r1) as [a|]; [|discriminate].
        destruct (width r2) as [b|]; [|discriminate].
        intros [= <-]. specialize (W2 b eq_refl). lia.
  - simpl. destruct (run r1 st k) eqn:E1.
    + intros [= ->]. exact (IH1 _ _ _ E1).
    + intros H. exists st. split; [exact H|]. split; [apply advanced_refl|].
      intros w _. lia.
  - revert st k. induction n as [|n IHn]; intros st k.
    + simpl. intros H. exists st. split; [exact H|].
      split; [apply advanced_refl|]. intros w _. lia.
    + change (run (Upto (S n) r1) st k)
        with (match run r1 st (fun st' => run (Upto n r1) st' k) with
              | Some m => Some m
              | None => k st
              end).
      destruct (run r1 st (fun st' => run (Upto n r1) st' k)) eqn:E1.
      * intros [= ->]. destruct (IH1 _ _ _ E1) as [st1 [H1 [A1 W1]]].
        destruct (IHn _ _ H1) as [st2 [H2 [A2 W2]]].
        exists st2. split; [exact H2|]. split.
        -- eapply advanced_trans; [| |exact A1|exact A2]; intros c Hc;
             exact Hc.
        -- intros w. simpl in *. destruct (width r1) as [a|]; [|discriminate].
           intros [= <-]. specialize (W1 a eq_refl).
           specialize (W2 _ eq_refl). lia.
      * intros H. exists st. split; [exact H|].
        split; [apply advanced_refl|]. intros w _. lia.
  - simpl. destruct (rest st) as [|c t] eqn:E; [discriminate|].
    destruct (p c) eqn:Hc; [|discriminate].
    intros H. destruct (many_advanced _ _ _ _ _ _ H) as [st' [Hk [u [Eu Fu]]]].
    exists st'. split; [exact Hk|]. split; [|intros w [=]].
    exists (c :: u). split.
    + rewrite E, Eu. reflexivity.
    + constructor; assumption.
  - simpl. intros H. destruct (IH1 _ _ _ H) as [st1 [H1 [A1 W1]]].
    eexists. split; [exact H1|]. split; [exact A1 | exact W1].
  - simpl. destruct (before st); [|discriminate].
    intros H. exists st. split; [exact H|]. split; [apply advanced_refl|].
    intros w _. lia.
  - simpl. intros H. exists st. split; [|split; [apply advanced_refl|]].
    + destruct (rest st) as [|c [|? ?]]; try discriminate; [exact H|].
      destruct (c =? 10); [exact H | discriminate].
    + intros w _. lia.
Qed.

(** Nothing to find in a text without a quote character. *)
Lemma search_no_quote (s : pystr) :
  Forall (fun c => is_quote c = false) s ->
  forall bef, search_from quote_re bef s = None.
Proof.
  induction 1 as [|c s Hc _ IH]; intros bef.
  - reflexivity.
  - destruct (quote_kinds c Hc) as [Hd Hs].
    simpl search_from. unfold quote_re at 1. simpl run.
    rewrite Hc, Hd, Hs. apply IH.
Qed.

End MoreReFacts.

Section MoreNameFacts.
Context (rt : Runtime).

(** Testing the trimmed text of a name for initials is testing the
    name. *)
Lemma is_initials_trimmed (v : pyval) :
  pd_isna v = false ->
  is_initials rt (PStr (strip (py_str rt v))) = is_initials rt v.
Proof.
  intros H. unfold is_initials. rewrite H. simpl. rewrite strip_idemp.
  reflexivity.
Qed.

Lemma is_initials_present (v : pyval) :
  is_initials rt v = true -> pd_isna v = false.
Proof.
  unfold is_initials. destruct (pd_isna v); [discriminate | reflexivity].
Qed.

Lemma trimmed_blank (s : pystr) :
  Forall (fun c => isspace c = true) (strip s) -> strip s = [].
Proof.
  intros H. rewrite <- strip_idemp. apply strip_spaces. exact H.
Qed.

End MoreNameFacts.

(** X1.  [clean_first_name] raises exactly on a name that is not
    missing and is empty once trimmed, and what it raises then is
    IndexError. *)
Theorem clean_first_name_raises (rt : Runtime) (v : pyval) (e : exn) :
  clean_first_name rt v = Raise e
  <-> pd_isna v = false /\ strip (py_str rt v) = [] /\ e = IndexError.
Proof.
  unfold clean_first_name. split.
  - destruct (pd_isna v); [discriminate|].
    destruct (is_initials rt (PStr (strip (py_str rt v)))); [discriminate|].
    destruct (re_search quote_re (strip (py_str rt v))) as [qm|].
    + destruct (first_not_none (groups 3 qm)) as [[|c q]|]; try discriminate;
        (destruct (split (strip (py_str rt v))) eqn:Es; [|discriminate];
         intros [= <-]; split; [reflexivity|]; split; [|reflexivity];
         apply trimmed_blank; apply (split_from_nil [] _ Es)).
    + destruct (split (strip (py_str rt v))) eqn:Es; [|discriminate].
      intros [= <-]. split; [reflexivity|]. split; [|reflexivity].
      apply trimmed_blank. apply (split_from_nil [] _ Es).
  - intros [Hna [Hs ->]]. rewrite Hna, Hs. reflexivity.
Qed.

(** X2.  The results with isConfident = false are the missing name,
    handed back as it is, and the initials, handed back trimmed; every
    other result is confident. *)
Theorem unconfident_names (rt : Runtime) (v w : pyval) :
  clean_first_name rt v = Ok (w, false)
  <-> (pd_isna v = true /\ w = v)
      \/ (is_initials rt v = true /\ w = PStr (strip (py_str rt v))).
Proof.
  split.
  - unfold clean_first_name. destruct (pd_isna v) eqn:Hna.
    + intros [= <-]. left. split; reflexivity.
    + rewrite (is_initials_trimmed rt v Hna).
      destruct (is_initials rt v).
      * intros [= <-]. right. split; reflexivity.
      * destruct (re_search quote_re (strip (py_str rt v))) as [qm|];
          [destruct (first_not_none (groups 3 qm)) as [[|c q]|]|];
          try discriminate;
          destruct (split (strip (py_str rt v))); discriminate.
  - intros [[Hna ->] | [Hi ->]]; unfold clean_first_name.
    + rewrite Hna. reflexivity.
    + pose proof (is_initials_present rt v Hi) as Hna.
      rewrite Hna, (is_initials_trimmed rt v Hna), Hi. reflexivity.
Qed.

(** X3.  A name that is present, is not initials, holds no quote
    character and is not blank is cleaned to its first word, the
    characters of the trimmed name before the first whitespace,
    capitalised, with isConfident = true. *)
Theorem plain_name_first_word (rt : Runtime) (v : pyval) :
  pd_isna v = false ->
  is_initials rt v = false ->
  Forall (fun c => is_quote c = false) (strip (py_str rt v)) ->
  strip (py_str rt v) <> [] ->
  exists word tail,
    strip (py_str rt v) = word ++ tail
    /\ word <> []
    /\ Forall (fun c => isspace c = false) word
    /\ (tail = [] \/ exists c t, tail = c :: t /\ isspace c = true)
    /\ clean_first_name rt v = Ok (PStr (capitalize rt word), true).
Proof.
  intros Hna Hi Hq Hne.
  destruct (first_word (strip (py_str rt v))) as [word [tail [E [Hw Ht]]]].
  assert (Hword : word <> []).
  { intros ->. simpl in E. destruct Ht as [-> | [c [t [-> Hc]]]].
    - congruence.
    - rewrite (strip_head _ _ _ E) in Hc. discriminate. }
  exists word, tail. repeat (split; [assumption|]).
  unfold clean_first_name.
  rewrite Hna, (is_initials_trimmed rt v Hna), Hi.
  unfold re_search. rewrite (search_no_quote _ Hq []).
  destruct (split_from_word [] word tail Hw Ht Hword) as [fields Hf].
  unfold split. rewrite E, Hf. reflexivity.
Qed.

Lemma plain_name_first_word_witness :
  exists word tail,
    strip (py_str ascii_runtime (PStr (str " maria garcia ")))
    = word ++ tail
    /\ word <> []
    /\ Forall (fun c => isspace c = false) word
    /\ (tail = [] \/ exists c t, tail = c :: t /\ isspace c = true)
    /\ clean_first_name ascii_runtime (PStr (str " maria garcia "))
       = Ok (PStr (capitalize ascii_runtime word), true).
Proof.
  apply (plain_name_first_word ascii_runtime (PStr (str " maria garcia "))).
  - reflexivity.
  - vm_compute. reflexivity.
  - vm_compute. repeat constructor.
  - vm_compute. discriminate.
Defined.

(** X4.  A name classified as initials is, once trimmed, one to six
    characters long, starts with a letter and holds only ASCII letters,
    dots and spaces. *)
Theorem initials_shape (rt : Runtime) (v : pyval) :
  is_initials rt v = true ->
  (1 <= length (strip (py_str rt v)) <= 6)%nat
  /\ Forall (fun c => is_letter c || is_dot_or_space c = true)
            (strip (py_str rt v))
  /\ exists c t, strip (py_str rt v) = c :: t /\ is_letter c = true.
Proof.
  unfold is_initials. destruct (pd_isna v); [discriminate|].
  destruct (re_match initials_re (strip (py_str rt v))) as [m|] eqn:Hm;
    [intros _ | discriminate].
  assert (Hhead : exists c t,
             strip (py_str rt v) = c :: t /\ is_letter c = true).
  { destruct (strip (py_str rt v)) as [|c t]; [discriminate|].
    exists c, t. split; [reflexivity|].
    unfold re_match, initials_re in Hm. simpl in Hm.
    destruct (is_letter c); [reflexivity | discriminate]. }
  unfold re_match in Hm.
  set (X := Cat Bol (Cat (Cls is_letter)
             (Cat (Upto 2 (Cat (Opt (Cls is_dot_or_space)) (Cls is_letter)))
                  (Opt (Cls is_dot))))) in *.
  change (run X (MState [] (strip (py_str rt v)) [])
              (fun st' => run Eol st' Some) = Some m) in Hm.
  destruct (run_bounded _ _ _ _ Hm) as [st' [HE [[used [E F]] W]]].
  specialize (W 6%nat eq_refl). simpl in E, W.
  assert (Hrest : rest st' = []).
  { simpl in HE. destruct (rest st') as [|c [|? ?]]; try discriminate;
      [reflexivity|].
    destruct (c =? 10) eqn:E10; [|discriminate].
    apply N.eqb_eq in E10. subst c.
    pose proof (strip_last _ _ _ E) as Hsp. vm_compute in Hsp.
    discriminate. }
  rewrite Hrest in *. rewrite app_nil_r in E. simpl in W.
  destruct Hhead as [c [t [Hc Hl]]].
  split; [|split].
  - rewrite Hc in *. simpl in *. lia.
  - rewrite E. eapply Forall_impl; [exact F|]. intros a Ha.
    unfold X in Ha. simpl in Ha.
    assert (Hd : is_dot a = true -> is_dot_or_space a = true).
    { unfold is_dot, is_dot_or_space. intros ->. reflexivity. }
    destruct (is_letter a), (is_dot_or_space a), (is_dot a);
      simpl in *; try reflexivity; try discriminate.
    specialize (Hd eq_refl). discriminate.
  - exists c, t. split; assumption.
Qed.

Lemma initials_shape_witness :
  (1 <= length (strip (py_str ascii_runtime (PStr (str " A.B. ")))) <= 6)%nat
  /\ Forall (fun c => is_letter c || is_dot_or_space c = true)
            (strip (py_str ascii_runtime (PStr (str " A.B. "))))
  /\ exists c t,
       strip (py_str ascii_runtime (PStr (str " A.B. "))) = c :: t
       /\ is_letter c = true.
Proof.
  apply (initials_shape ascii_runtime (PStr (str " A.B. "))).
  vm_compute. reflexivity.
Defined.

(* ===================================================================== *)
(** * Further properties of the e-mail validator *)
(* ===================================================================== *)

Section MoreValidatorFacts.
Context (rt : Runtime).

(** A call that returns has used up one answer per request. *)
Lemma validate_email_at_consumes room email api_key : forall net v evs net',
  validate_email_at rt room email api_key net = Some (v, evs, net') ->
  exists used, net = used ++ net'
               /\ (room <> 0%nat -> used <> [])
               /\ length (List.filter is_get evs) = length used.
Proof.
  induction room as [|room IH]; intros net v evs net'.
  - intros [= <- <- <-]. exists []. split; [reflexivity|].
    split; [congruence | reflexivity].
  - destruct net as [|[r|] net]; simpl; [discriminate| |].
    + destruct (status_code r =? 200)%Z.
      { intros [= <- <- <-]. exists [Answer r]. repeat split. discriminate. }
      destruct (status_code r =? 429)%Z.
      { destruct (validate_email_at rt room email api_key net)
          as [[[v0 e0] n0]|] eqn:E; [|discriminate].
        intros [= <- <- <-]. destruct (IH _ _ _ _ E) as [used [-> [_ L]]].
        exists (Answer r :: used). split; [reflexivity|].
        split; [discriminate|]. simpl. rewrite L. reflexivity. }
      destruct (status_code r =? 422)%Z; intros [= <- <- <-];
        exists [Answer r]; repeat split; discriminate.
    + intros [= <- <- <-]. exists [Failure]. repeat split. discriminate.
Qed.

Lemma validate_email_consumes email api_key net v evs net' :
  validate_email rt email api_key net = Some (v, evs, net') ->
  exists used, net = used ++ net' /\ used <> []
               /\ length (List.filter is_get evs) = length used.
Proof.
  intros H. apply validate_email_at_consumes in H.
  destruct H as [used [E [Hne L]]]. exists used.
  split; [exact E|]. split; [apply Hne; discriminate | exact L].
Qed.


End MoreValidatorFacts.




(* ===================================================================== *)
(** * Further properties of the pipeline *)
(* ===================================================================== *)

Section MorePipelineFacts.
Context (rt : Runtime).

(** An answer other than the rate-limit one is answered by one
    request. *)
Lemma validate_email_single email api_key rep net :
  ~ is_rate_limit rep ->
  exists v, validate_email rt email api_key (rep :: net)
            = Some (v, [Get (validation_url rt email api_key)], net).
Proof.
  intros Hn.
  destruct (validate_email_at_single rt email api_key rep net Hn) as [v Hv].
  exists v. apply Hv.
Qed.

Lemma clean_raise_kind (v : pyval) (e : exn) :
  clean_first_name rt v = Raise e -> e = IndexError.
Proof.
  unfold clean_first_name. destruct (pd_isna v); [discriminate|].
  destruct (is_initials rt _); [discriminate|].
  destruct (re_search quote_re _) as [qm|];
    [destruct (first_not_none (groups 3 qm)) as [[|c q]|]|];
    try discriminate;
    (destruct (split _); [intros [= <-]; reflexivity | discriminate]).
Qed.

Lemma clean_blank_cell (s : pystr) :
  Forall (fun c => isspace c = true) s ->
  clean_first_name rt (PStr s) = Raise IndexError.
Proof.
  intros H. unfold clean_first_name, is_initials. simpl.
  rewrite (strip_spaces s H). reflexivity.
Qed.

(** The flag of a cleaned name: false for the missing name and for
    initials. *)
Lemma clean_flag (v w : pyval) (flag : bool) :
  clean_first_name rt v = Ok (w, flag) ->
  flag = negb (pd_isna v || is_initials rt v).
Proof.
  unfold clean_first_name. destruct (pd_isna v) eqn:Hna.
  - intros [= _ <-]. reflexivity.
  - rewrite (is_initials_trimmed rt v Hna).
    destruct (is_initials rt v).
    + intros [= _ <-]. reflexivity.
    + repeat case_match; try discriminate; intros [= _ <-]; reflexivity.
Qed.

(** One blank name makes the cleaning of the whole table raise. *)
Lemma clean_rows_blank cols i j rws invalid :
  index_of (str "First Name") cols = Some i ->
  index_of (str "Email") cols = Some j ->
  Exists (fun row : list pyval =>
            exists s, row !! i = Some (PStr s)
                      /\ Forall (fun c => isspace c = true) s) rws ->
  clean_rows rt cols rws invalid = Raise IndexError.
Proof.
  intros Hi Hj Hex. revert invalid.
  induction rws as [|row rws IH]; intros invalid.
  - inversion Hex.
  - simpl. unfold clean_and_track, row_get. rewrite Hi, Hj. simpl.
    destruct (clean_first_name rt (default NaN (row !! i)))
      as [[name flag]|e] eqn:Ec; simpl.
    + assert (Htail : Exists (fun row : list pyval =>
                exists s, row !! i = Some (PStr s)
                          /\ Forall (fun c => isspace c = true) s) rws).
      { apply Exists_cons in Hex. destruct Hex as [[s [Hs Hb]]|H]; [|exact H].
        rewrite Hs in Ec. simpl in Ec. rewrite (clean_blank_cell s Hb) in Ec.
        discriminate. }
      destruct flag; simpl; rewrite (IH Htail); reflexivity.
    + rewrite (clean_raise_kind _ _ Ec). reflexivity.
Qed.

(** The entries added while cleaning: one for each row whose name is
    missing or initials, in the order of the rows. *)
Lemma clean_rows_invalid cols i j rws invalid names invalid' :
  index_of (str "First Name") cols = Some i ->
  index_of (str "Email") cols = Some j ->
  clean_rows rt cols rws invalid = Ok (names, invalid') ->
  invalid'
  = invalid
    ++ map (fun row : list pyval =>
              Invalid (default NaN (row !! i)) (default NaN (row !! j)))
         (List.filter
            (fun row : list pyval =>
               pd_isna (default NaN (row !! i))
               || is_initials rt (default NaN (row !! i))) rws).
Proof.
  intros Hi Hj. revert invalid names invalid'.
  induction rws as [|row rws IH]; intros invalid names invalid'.
  - simpl. intros [= _ <-]. rewrite app_nil_r. reflexivity.
  - simpl. unfold clean_and_track, row_get. rewrite Hi, Hj. simpl.
    destruct (clean_first_name rt (default NaN (row !! i)))
      as [[name flag]|e] eqn:Ec; simpl; [|discriminate].
    rewrite (clean_flag _ _ _ Ec).
    destruct (pd_isna _ || is_initials rt _); simpl.
    + destruct (clean_rows rt cols rws _) as [[names1 inv1]|] eqn:Er;
        simpl; [|discriminate].
      intros [= _ <-]. rewrite (IH _ _ _ Er), <- app_assoc. reflexivity.
    + destruct (clean_rows rt cols rws _) as [[names1 inv1]|] eqn:Er;
        simpl; [|discriminate].
      intros [= _ <-]. apply (IH _ _ _ Er).
Qed.

(** What a run that returns has written, for a table as in C7. *)
Lemma process_csv_output (df : DataFrame) (api_key : pystr)
    (net : list reply) out report evs net' :
  rectangular df ->
  index_of (str "is_valid_email") (columns df) = None ->
  process_csv rt df api_key net = Some (Ok (out, report), evs, net') ->
  exists names mask,
    clean_rows rt (columns df) (rows df) [] = Ok (names, invalid_names report)
    /\ out = Frame (columns (set_column df (str "First Name") names))
               (select mask (rows (set_column df (str "First Name") names))).
Proof.
  intros Hrect Htag. unfold process_csv.
  destruct (clean_rows rt (columns df) (rows df) []) as [[names invalid]|]
    eqn:Ec; simpl; [|discriminate].
  destruct (cleaned_table rt df names invalid Hrect Htag Ec)
    as [Hr1 [Hl1 Ht1]].
  set (cleaned := set_column df (str "First Name") names) in *.
  destruct (column cleaned (str "Email")) as [emails|] eqn:Ee; simpl;
    [|discriminate].
  destruct (validate_all rt emails api_key net) as [[[tags evs0] net0]|]
    eqn:Ev; simpl; [|discriminate].
  destruct (as_mask tags) as [mask|] eqn:Em; simpl; [|discriminate].
  apply as_mask_Ok in Em. subst tags.
  unfold select_rows. rewrite as_mask_bools. simpl.
  unfold set_column at 1 2. rewrite Ht1. simpl.
  unfold drop_column. simpl. rewrite (index_of_new _ _ Ht1).
  intros [= <- <- <- <-]. exists names, mask. split; [reflexivity|].
  rewrite (delete_middle (columns cleaned) [] (str "is_valid_email")).
  rewrite app_nil_r, (select_new_column _ _ _ Hr1). reflexivity.
Qed.

Lemma select_elem mask (rws : list (list pyval)) row :
  In row (select mask rws) -> In row rws.
Proof.
  revert rws. induction mask as [|b mask IH]; intros [|r rws]; simpl;
    try contradiction.
  destruct b; simpl; intros H.
  - destruct H as [H|H]; [left; exact H | right; apply IH; exact H].
  - right. apply IH. exact H.
Qed.

Lemma write_cells_elem i (rws : list (list pyval)) vals row' :
  In row' (write_cells (Some i) rws vals) ->
  exists row v, In row rws /\ row' = <[i := v]> row.
Proof.
  revert vals. induction rws as [|r rws IH]; intros [|v vals]; simpl;
    try contradiction.
  intros [H|H].
  - exists r, v. split; [left; reflexivity | symmetry; exact H].
  - destruct (IH _ H) as [row [w [Hin E]]]. exists row, w.
    split; [right; exact Hin | exact E].
Qed.

End MorePipelineFacts.

(** X7.  When none of the answers is the rate-limit one, the pipeline
    makes exactly one request per row, in the order of the rows, each for
    the e-mail of its row, and uses one answer per row. *)
Theorem one_request_per_row (rt : Runtime) (emails : list pyval)
    (api_key : pystr) (used net : list reply) :
  length used = length emails ->
  Forall (fun rep => ~ is_rate_limit rep) used ->
  exists tags,
    validate_all rt emails api_key (used ++ net)
    = Some (tags,
            map (fun email => Get (validation_url rt email api_key)) emails,
            net)
    /\ length tags = length emails.
Proof.
  revert used. induction emails as [|email emails IH]; intros used Hl Hu.
  - destruct used; [|discriminate]. exists []. split; reflexivity.
  - destruct used as [|rep used]; [discriminate|].
    inversion Hu as [|? ? Hrep Hrest]; subst. injection Hl as Hl.
    destruct (validate_email_single rt email api_key rep (used ++ net) Hrep)
      as [v Hv].
    destruct (IH used Hl Hrest) as [tags [Ht Hlen]].
    exists (v :: tags). cbn [validate_all app]. rewrite Hv. simpl.
    rewrite Ht. simpl.
    split; [reflexivity | rewrite Hlen; reflexivity].
Qed.

Lemma one_request_per_row_witness :
  exists tags,
    validate_all ascii_runtime [PStr (str "a@x.com"); PStr (str "m@x.com")]
      sample_key ([Answer quota_exceeded; Answer good_response] ++ [Failure])
    = Some (tags,
            map (fun email => Get (validation_url ascii_runtime email
                                     sample_key))
                [PStr (str "a@x.com"); PStr (str "m@x.com")],
            [Failure])
    /\ length tags = 2%nat.
Proof.
  apply (one_request_per_row ascii_runtime
           [PStr (str "a@x.com"); PStr (str "m@x.com")] sample_key
           [Answer quota_exceeded; Answer good_response] [Failure]).
  - reflexivity.
  - repeat constructor; intros [r [[= <-] H]]; vm_compute in H; discriminate.
Defined.

(** X8.  Validation of a column takes the answers in order from the
    head of those to come: a run that returns has made as many requests as
    it used answers, at least one per row, and has one tag per row. *)
Theorem validate_all_sequential (rt : Runtime) (emails : list pyval)
    (api_key : pystr) (net : list reply) tags evs net' :
  validate_all rt emails api_key net = Some (tags, evs, net') ->
  exists used,
    net = used ++ net'
    /\ length (List.filter is_get evs) = length used
    /\ (length emails <= length used)%nat
    /\ length tags = length emails.
Proof.
  revert net tags evs net'.
  induction emails as [|email emails IH]; simpl; intros net tags evs net'.
  - intros [= <- <- <-]. exists [].
    split; [reflexivity|]. split; [reflexivity|].
    split; [simpl; lia | reflexivity].
  - destruct (validate_email rt email api_key net) as [[[tag e1] n1]|] eqn:E1;
      simpl; [|discriminate].
    destruct (validate_all rt emails api_key n1) as [[[tags1 e2] n2]|] eqn:E2;
      simpl; [|discriminate].
    intros [= <- <- <-].
    destruct (validate_email_consumes rt _ _ _ _ _ _ E1) as [u1 [-> [Hne L1]]].
    destruct (IH _ _ _ _ E2) as [u2 [-> [L2 [Hle Hlen]]]].
    exists (u1 ++ u2). split; [rewrite app_assoc; reflexivity|].
    rewrite List.filter_app, !length_app, L1, L2.
    split; [reflexivity|]. split; [|simpl; rewrite Hlen; reflexivity].
    destruct u1; [contradiction | simpl; lia].
Qed.

Lemma validate_all_sequential_witness :
  exists used,
    [Answer rate_limited; Answer good_response; Failure; Answer good_response]
    = used ++ [Answer good_response]
    /\ length (List.filter is_get
                 (retries (validation_url ascii_runtime (PStr (str "a@x.com"))
                             sample_key) 1
                  ++ [Get (validation_url ascii_runtime (PStr (str "a@x.com"))
                             sample_key);
                      Get (validation_url ascii_runtime (PStr (str "m@x.com"))
                             sample_key)]))
       = length used
    /\ (length [PStr (str "a@x.com"); PStr (str "m@x.com")] <= length used)%nat
    /\ length [PBool true; PBool false]
       = length [PStr (str "a@x.com"); PStr (str "m@x.com")].
Proof.
  apply (validate_all_sequential ascii_runtime
           [PStr (str "a@x.com"); PStr (str "m@x.com")] sample_key
           [Answer rate_limited; Answer good_response; Failure;
            Answer good_response]).
  vm_compute. reflexivity.
Defined.

(** X9.  A first name of whitespace only, in any row of a table that
    has both columns, makes [process_csv] raise IndexError before it has
    made any request: no row of the file is validated or written. *)
Theorem blank_name_aborts_file (rt : Runtime) (df : DataFrame)
    (api_key : pystr) (net : list reply) (i j : nat) :
  index_of (str "First Name") (columns df) = Some i ->
  index_of (str "Email") (columns df) = Some j ->
  Exists (fun row : list pyval =>
            exists s, row !! i = Some (PStr s)
                      /\ Forall (fun c => isspace c = true) s) (rows df) ->
  process_csv rt df api_key net = Some (Raise IndexError, [], net).
Proof.
  intros Hi Hj Hex. unfold process_csv.
  rewrite (clean_rows_blank rt _ i j _ [] Hi Hj Hex). reflexivity.
Qed.

Lemma blank_name_aborts_file_witness :
  process_csv ascii_runtime blank_name_table sample_key sample_net
  = Some (Raise IndexError, [], sample_net).
Proof.
  apply (blank_name_aborts_file ascii_runtime blank_name_table sample_key
           sample_net 0 1).
  - reflexivity.
  - reflexivity.
  - apply Exists_cons. right. apply Exists_cons. left.
    exists (str "  "). split; [reflexivity | repeat constructor].
Defined.

(** X10.  The invalid names of the report are the original name and the
    e-mail of exactly the rows whose name is missing or is initials, in the
    order of the rows, whether or not the row is kept. *)
Theorem report_lists_flagged_names (rt : Runtime) (df : DataFrame)
    (api_key : pystr) (net : list reply) out report evs net' (i j : nat) :
  index_of (str "First Name") (columns df) = Some i ->
  index_of (str "Email") (columns df) = Some j ->
  process_csv rt df api_key net = Some (Ok (out, report), evs, net') ->
  invalid_names report
  = map (fun row : list pyval =>
           Invalid (default NaN (row !! i)) (default NaN (row !! j)))
      (List.filter
         (fun row : list pyval =>
            pd_isna (default NaN (row !! i))
            || is_initials rt (default NaN (row !! i))) (rows df)).
Proof.
  intros Hi Hj. unfold process_csv.
  destruct (clean_rows rt (columns df) (rows df) []) as [[names invalid]|]
    eqn:Ec; simpl; [|discriminate].
  destruct (column _ (str "Email")) as [emails|]; simpl; [|discriminate].
  destruct (validate_all rt emails api_key net) as [[[tags evs0] net0]|];
    simpl; [|discriminate].
  intros [= H _ _].
  apply bind_Ok in H. destruct H as [mask [_ H]].
  apply bind_Ok in H. destruct H as [kept [_ H]].
  apply bind_Ok in H. destruct H as [out1 [_ H]].
  injection H as _ <-. simpl.
  apply (clean_rows_invalid rt _ i j _ [] _ _ Hi Hj Ec).
Qed.

Lemma report_lists_flagged_names_witness :
  invalid_names wide_report
  = map (fun row : list pyval =>
           Invalid (default NaN (row !! 0%nat)) (default NaN (row !! 1%nat)))
      (List.filter
         (fun row : list pyval =>
            pd_isna (default NaN (row !! 0%nat))
            || is_initials ascii_runtime (default NaN (row !! 0%nat)))
         (rows wide_table)).
Proof.
  apply (report_lists_flagged_names ascii_runtime wide_table sample_key
           [Answer quota_exceeded; Answer good_response]
           wide_output wide_report
           [Get (validation_url ascii_runtime (PStr (str "a@x.com"))
                   sample_key);
            Get (validation_url ascii_runtime (PStr (str "m@x.com"))
                   sample_key)] []).
  - reflexivity.
  - reflexivity.
  - vm_compute. reflexivity.
Defined.

(** X11.  The pipeline changes the First Name column only: every row it
    writes agrees, in every other column, with a row of the table it
    read, and the columns are those of that table. *)
Theorem other_columns_kept (rt : Runtime) (df : DataFrame)
    (api_key : pystr) (net : list reply) out report evs net' (i : nat) :
  rectangular df ->
  index_of (str "is_valid_email") (columns df) = None ->
  index_of (str "First Name") (columns df) = Some i ->
  process_csv rt df api_key net = Some (Ok (out, report), evs, net') ->
  columns out = columns df
  /\ forall row', In row' (rows out) ->
       exists row, In row (rows df)
                   /\ forall k, k <> i -> row' !! k = row !! k.
Proof.
  intros Hrect Htag Hi H.
  destruct (process_csv_output rt _ _ _ _ _ _ _ Hrect Htag H)
    as [names [mask [_ ->]]].
  unfold set_column. rewrite Hi. simpl. split; [reflexivity|].
  intros row' Hin. apply select_elem in Hin.
  apply write_cells_elem in Hin. destruct Hin as [row [v [Hrow ->]]].
  exists row. split; [exact Hrow|]. intros k Hk.
  apply list_lookup_insert_ne. congruence.
Qed.

Lemma other_columns_kept_witness :
  columns wide_output = columns wide_table
  /\ forall row', In row' (rows wide_output) ->
       exists row, In row (rows wide_table)
                   /\ forall k, k <> 0%nat -> row' !! k = row !! k.
Proof.
  apply (other_columns_kept ascii_runtime wide_table sample_key
           [Answer quota_exceeded; Answer good_response]
           wide_output wide_report
           [Get (validation_url ascii_runtime (PStr (str "a@x.com"))
                   sample_key);
            Get (validation_url ascii_runtime (PStr (str "m@x.com"))
                   sample_key)] [] 0).
  - repeat constructor.
  - reflexivity.
  - reflexivity.
  - vm_compute. reflexivity.
Defined.

(* ===================================================================== *)
(** * Further properties of the deduplicator *)
(* ===================================================================== *)

Section MoreDedupeFacts.

Lemma index_of_None name cols : index_of name cols = None <-> ~ In name cols.
Proof.
  induction cols as [|c cols IH]; simpl.
  - split; [intros _ [] | reflexivity].
  - destruct (Str.eqb c name) eqn:E.
    + apply eqb_eq in E. split; [discriminate|]. intros H. exfalso.
      apply H. left. exact E.
    + assert (Hne : c <> name).
      { intros Hc. apply eqb_eq in Hc. congruence. }
      destruct (index_of name cols); simpl.
      * split; [discriminate|]. intros H. exfalso.
        assert (Hin : ~ In name cols) by tauto.
        apply IH in Hin. discriminate.
      * split; [|reflexivity]. intros _ [H|H]; [congruence|].
        destruct IH as [IH _]. exact (IH eq_refl H).
Qed.

Lemma write_cells_keys_elem (i : nat) (rws : list (list pyval))
    (f : list pyval -> pyval) row' :
  In row' (write_cells (Some i) rws (map f rws)) ->
  exists row, In row rws /\ row' = <[i := f row]> row.
Proof.
  induction rws as [|r rws IH]; simpl; [contradiction|].
  intros [H|H].
  - exists r. split; [left; reflexivity | symmetry; exact H].
  - destruct (IH H) as [row [Hin E]]. exists row.
    split; [right; exact Hin | exact E].
Qed.

(** The key of a row once trimmed in place is its trimmed key. *)
Lemma key_of_written (i : nat) (row : list pyval) :
  (i < length row)%nat ->
  <[i := PStr (key_of i row)]> row !! i = Some (PStr (key_of i row))
  /\ key_of i (<[i := PStr (key_of i row)]> row) = key_of i row.
Proof.
  intros Hi. assert (E := list_lookup_insert_eq row i (PStr (key_of i row)) Hi).
  split; [exact E|]. unfold key_of at 1. rewrite E. simpl.
  apply trimmed_key_trimmed.
Qed.

Lemma select_is_new (i : nat) (urls : gset pystr) (rws : list (list pyval)) :
  select (unique_mask urls (map (key_of i) rws)) rws
  = List.filter (fun row => is_new urls (key_of i row)) rws.
Proof.
  induction rws as [|row rws IH]; simpl; [reflexivity|].
  fold (is_new urls (key_of i row)).
  destruct (is_new urls (key_of i row)); rewrite IH; reflexivity.
Qed.

(** On rows whose key is a trimmed string the deduplicator is the
    filter. *)
Lemma dedupe_csv_trimmed master_df cols rws (i : nat) master_col urls :
  index_of (str "LinkedIn Profile") cols = Some i ->
  column master_df (str "LinkedIn URL") = Ok master_col ->
  master_urls master_col = Ok urls ->
  Forall (fun row : list pyval =>
            exists p, row !! i = Some (PStr p) /\ strip p = p) rws ->
  dedupe_csv master_df (Frame cols rws)
  = Ok (Some (Frame cols
                (List.filter (fun row => is_new urls (key_of i row)) rws))).
Proof.
  intros Hi Hm Hu Hn.
  assert (Ej : exists j,
             index_of (str "LinkedIn URL") (columns master_df) = Some j).
  { unfold column in Hm.
    destruct (index_of (str "LinkedIn URL") (columns master_df)) as [j|];
      [exists j; reflexivity | discriminate]. }
  destruct Ej as [j Ej].
  assert (Hrows :
    str_strip (fillna (map (fun row : list pyval => default NaN (row !! i)) rws))
    = Ok (map (key_of i) rws)
    /\ write_cells (Some i) rws (map PStr (map (key_of i) rws)) = rws).
  { clear Hm Hu Ej. induction Hn as [|row rws [p [Hp Ht]] _ [IH1 IH2]]; simpl.
    - split; reflexivity.
    - unfold key_of at 1 3. rewrite Hp. simpl. rewrite IH1. simpl.
      rewrite Ht, IH2, (list_insert_id row i (PStr p) Hp).
      split; reflexivity. }
  destruct Hrows as [Hs Hw].
  unfold dedupe_csv. cbn [columns]. rewrite Ej, Hi, Hm. simpl.
  rewrite Hu. simpl. unfold column. cbn [columns rows]. rewrite Hi. simpl.
  rewrite Hs. simpl. unfold set_column. cbn [columns rows]. rewrite Hi.
  cbn [columns rows]. rewrite Hw, select_is_new. reflexivity.
Qed.

Lemma select_written (i : nat) (urls : gset pystr)
    (rws : list (list pyval)) :
  Forall (fun row : list pyval => (i < length row)%nat) rws ->
  select
    (unique_mask urls
       (map trimmed_key
          (map (fun row : list pyval => default NaN (row !! i)) rws)))
    (write_cells (Some i) rws
       (map PStr
          (map trimmed_key
             (map (fun row : list pyval => default NaN (row !! i)) rws))))
  = List.filter (fun row => is_new urls (key_of i row))
      (map (fun row => <[i := PStr (key_of i row)]> row) rws).
Proof.
  induction 1 as [|row rws Hrow _ IH]; simpl; [reflexivity|].
  fold (key_of i row).
  destruct (key_of_written i row Hrow) as [_ Hk]. rewrite Hk.
  fold (is_new urls (key_of i row)).
  destruct (is_new urls (key_of i row)); rewrite IH; reflexivity.
Qed.

(** What a pass that returns has produced: the rows with their key
    trimmed in place, filtered. *)
Lemma dedupe_csv_filter master_df input_df unique_df :
  rectangular input_df ->
  dedupe_csv master_df input_df = Ok (Some unique_df) ->
  exists i master_col urls,
    index_of (str "LinkedIn Profile") (columns input_df) = Some i
    /\ column master_df (str "LinkedIn URL") = Ok master_col
    /\ master_urls master_col = Ok urls
    /\ unique_df
       = Frame (columns input_df)
           (List.filter (fun row => is_new urls (key_of i row))
              (map (fun row => <[i := PStr (key_of i row)]> row)
                 (rows input_df))).
Proof.
  intros Hrect H.
  destruct (dedupe_csv_result _ _ _ H)
    as [i [master_col [input_col [urls [Hi [Hm [Hc [Hu [_ ->]]]]]]]]].
  exists i, master_col, urls. repeat (split; [assumption|]).
  f_equal. unfold column in Hc. rewrite Hi in Hc. injection Hc as <-.
  apply select_written.
  eapply Forall_impl; [exact Hrect|]. intros row Hrow. simpl in Hrow.
  rewrite Hrow. apply (index_of_lt _ _ _ Hi).
Qed.

Lemma filter_swap {A} (f g : A -> bool) (l : list A) :
  List.filter f (List.filter g l) = List.filter g (List.filter f l).
Proof.
  induction l as [|a l IH]; simpl; [reflexivity|].
  destruct (f a) eqn:Ef, (g a) eqn:Eg; simpl; rewrite ?Ef, ?Eg, IH;
    reflexivity.
Qed.

End MoreDedupeFacts.

(** X12.  The deduplicator returns [None], and no table, exactly when
    the master has no column LinkedIn URL or the input has no column
    LinkedIn Profile, whatever else the two tables hold. *)
Theorem dedupe_missing_column (master_df input_df : DataFrame) :
  dedupe_csv master_df input_df = Ok None
  <-> ~ In (str "LinkedIn URL") (columns master_df)
      \/ ~ In (str "LinkedIn Profile") (columns input_df).
Proof.
  unfold dedupe_csv. rewrite <- !index_of_None.
  destruct (index_of (str "LinkedIn URL") (columns master_df)) as [j|].
  - destruct (index_of (str "LinkedIn Profile") (columns input_df)) as [i|].
    + split; [|intros [H|H]; discriminate].
      destruct (column master_df _) as [mc|]; simpl; [|discriminate].
      destruct (master_urls mc) as [u|]; simpl; [|discriminate].
      destruct (column input_df _) as [ic|]; simpl; [|discriminate].
      destruct (str_strip (fillna ic)) as [ps|]; simpl; discriminate.
    + split; [intros _; right; reflexivity | reflexivity].
  - split; [intros _; left; reflexivity | reflexivity].
Qed.





(** X15.  Deduplicating against two masters one after the other gives
    the same table in either order. *)
Theorem dedupe_order_irrelevant (master_a master_b input_df a b : DataFrame) :
  rectangular input_df ->
  dedupe_csv master_a input_df = Ok (Some a) ->
  dedupe_csv master_b input_df = Ok (Some b) ->
  exists ab, dedupe_csv master_b a = Ok (Some ab)
             /\ dedupe_csv master_a b = Ok (Some ab).
Proof.
  intros Hrect Ha Hb.
  destruct (dedupe_csv_filter _ _ _ Hrect Ha)
    as [i [col_a [urls_a [Hi [Hma [Hua ->]]]]]].
  destruct (dedupe_csv_filter _ _ _ Hrect Hb)
    as [i' [col_b [urls_b [Hi' [Hmb [Hub ->]]]]]].
  assert (i' = i) by congruence. subst i'.
  set (trimmed := map (fun row => <[i := PStr (key_of i row)]> row)
                      (rows input_df)).
  assert (Hn : Forall (fun row : list pyval =>
                         exists p, row !! i = Some (PStr p) /\ strip p = p)
                      trimmed).
  { unfold trimmed. apply List.Forall_forall. intros row' Hin.
    apply in_map_iff in Hin. destruct Hin as [row [<- Hrow]].
    assert (Hlt : (i < length row)%nat).
    { unfold rectangular in Hrect. rewrite List.Forall_forall in Hrect.
      rewrite (Hrect row Hrow). apply (index_of_lt _ _ _ Hi). }
    exists (key_of i row). split; [apply (key_of_written i row Hlt)|].
    apply trimmed_key_trimmed. }
  assert (Hsub : forall f : list pyval -> bool,
             Forall (fun row : list pyval =>
                       exists p, row !! i = Some (PStr p) /\ strip p = p)
                    (List.filter f trimmed)).
  { intros f. apply List.Forall_forall. intros row Hin.
    apply filter_In in Hin. destruct Hin as [Hin _].
    rewrite List.Forall_forall in Hn. exact (Hn row Hin). }
  eexists. split.
  - apply (dedupe_csv_trimmed master_b _ _ i col_b urls_b Hi Hmb Hub).
    apply Hsub.
  - rewrite (dedupe_csv_trimmed master_a _ _ i col_a urls_a Hi Hma Hua
               (Hsub _)).
    rewrite filter_swap. reflexivity.
Qed.

Lemma dedupe_order_irrelevant_witness :
  exists ab, dedupe_csv second_master sample_unique = Ok (Some ab)
             /\ dedupe_csv sample_master second_unique = Ok (Some ab).
Proof.
  apply (dedupe_order_irrelevant sample_master second_master sample_input
           sample_unique second_unique).
  - repeat constructor.
  - vm_compute. reflexivity.
  - vm_compute. reflexivity.
Defined.

(* ===================================================================== *)
(** * Properties of paths *)
(* ===================================================================== *)

Section PathFacts.











Lemma take_no_slash n (s : pystr) :
  Forall (fun a => is_slash a = false) s ->
  Forall (fun a => is_slash a = false) (take n s).
Proof. apply Forall_take. Qed.


End PathFacts.

Section DirFacts.








End DirFacts.

(* ===================================================================== *)
(** * Properties of the file handling and of the [main] functions *)
(* ===================================================================== *)

Section FileFacts.





End FileFacts.



Section PromptFacts.

Lemma with_csv_suffix (name : pystr) :
  endswith (with_csv name) (str ".csv") = true.
Proof.
  unfold with_csv. destruct (endswith name (str ".csv")) eqn:E; [exact E|].
  unfold endswith. apply bool_decide_eq_true. exists name. reflexivity.
Qed.

Lemma endswith_join (d name suffix : pystr) :
  endswith name suffix = true -> endswith (join d name) suffix = true.
Proof.
  intros H. unfold join.
  destruct (startswith name [slash]); [exact H|].
  destruct d as [|c d]; [exact H|].
  destruct (endswith (c :: d) [slash]);
    unfold endswith in *; rewrite bool_decide_eq_true in *.
  - apply suffix_app_r. exact H.
  - apply suffix_app_r. apply suffix_cons_r. exact H.
Qed.

(** The path the loop gives exists and ends with .csv. *)
Lemma ask_file_exists (disk : Disk) (folder : pystr) (inputs : list pystr)
    input_file rest :
  ask_file disk folder inputs = Some (input_file, rest) ->
  path_exists disk input_file = true
  /\ endswith input_file (str ".csv") = true.
Proof.
  induction inputs as [|name inputs IH]; simpl; [discriminate|].
  destruct (path_exists disk (join folder (with_csv name))) eqn:E.
  - intros [= <- _]. split; [exact E|].
    apply endswith_join. apply with_csv_suffix.
  - exact IH.
Qed.

Lemma ask_files_exist (disk : Disk) (folder : pystr) (n : nat)
    (inputs : list pystr) files rest :
  ask_files disk folder n inputs = Some (files, rest) ->
  length files = n
  /\ Forall (fun f => path_exists disk f = true
                      /\ endswith f (str ".csv") = true) files.
Proof.
  revert inputs files rest. induction n as [|n IH]; simpl;
    intros inputs files rest.
  - intros [= <- _]. split; [reflexivity | constructor].
  - destruct (ask_file disk folder inputs) as [[f inputs1]|] eqn:E1; simpl;
      [|discriminate].
    destruct (ask_files disk folder n inputs1) as [[fs inputs2]|] eqn:E2;
      simpl; [|discriminate].
    intros [= <- _]. destruct (IH _ _ _ E2) as [Hl Hf].
    split; [simpl; rewrite Hl; reflexivity|].
    constructor; [exact (ask_file_exists _ _ _ _ _ E1) | exact Hf].
Qed.

Lemma ask_count_positive (int_of_str : pystr -> option Z)
    (inputs : list pystr) n rest :
  ask_count int_of_str inputs = Some (n, rest) -> (0 < n)%Z.
Proof.
  induction inputs as [|line inputs IH]; simpl; [discriminate|].
  destruct (int_of_str line) as [k|]; [|exact IH].
  destruct (0 <? k)%Z eqn:E; [|exact IH].
  intros [= <- _]. apply Z.ltb_lt. exact E.
Qed.

End PromptFacts.



(** X18.  The loop that asks for a file gives the path of the first
    name typed whose file exists, with .csv added where the name does not
    end with it: the path exists and ends with .csv, and every name typed
    before it named no existing file. *)
Theorem ask_file_first_existing (disk : Disk) (folder : pystr)
    (inputs : list pystr) input_file rest :
  ask_file disk folder inputs = Some (input_file, rest) ->
  exists tried name,
    inputs = tried ++ name :: rest
    /\ input_file = join folder (with_csv name)
    /\ path_exists disk input_file = true
    /\ endswith input_file (str ".csv") = true
    /\ Forall (fun n => path_exists disk (join folder (with_csv n)) = false)
              tried.
Proof.
  induction inputs as [|name inputs IH]; simpl; [discriminate|].
  destruct (path_exists disk (join folder (with_csv name))) eqn:E.
  - intros [= <- <-]. exists [], name.
    split; [reflexivity|]. split; [reflexivity|]. split; [exact E|].
    split; [|constructor]. apply endswith_join. apply with_csv_suffix.
  - intros H. destruct (IH H) as [tried [n [-> [Hf [He [Hs Ht]]]]]].
    exists (name :: tried), n. split; [reflexivity|].
    split; [exact Hf|]. split; [exact He|]. split; [exact Hs|].
    constructor; assumption.
Qed.

Lemma ask_file_first_existing_witness :
  exists tried name,
    [str "lead"; str "leads"; str "new.csv"]
    = tried ++ name :: [str "new.csv"]
    /\ str "/home/u/Downloads/leads.csv"
       = join sample_folder (with_csv name)
    /\ path_exists sample_disk (str "/home/u/Downloads/leads.csv") = true
    /\ endswith (str "/home/u/Downloads/leads.csv") (str ".csv") = true
    /\ Forall (fun n => path_exists sample_disk
                          (join sample_folder (with_csv n)) = false)
              tried.
Proof.
  apply (ask_file_first_existing sample_disk sample_folder
           [str "lead"; str "leads"; str "new.csv"]).
  vm_compute. reflexivity.
Defined.

(** X19.  The loop keeps asking, whatever is typed, exactly as long as
    no name typed names an existing file: a missing file is asked for
    again and never ends the run. *)
Theorem ask_file_keeps_asking (disk : Disk) (folder : pystr)
    (inputs : list pystr) :
  ask_file disk folder inputs = None
  <-> Forall (fun n => path_exists disk (join folder (with_csv n)) = false)
             inputs.
Proof.
  induction inputs as [|name inputs IH]; simpl.
  - split; [constructor | reflexivity].
  - destruct (path_exists disk (join folder (with_csv name))) eqn:E.
    + split; [discriminate|]. intros H. inversion H; subst. congruence.
    + rewrite IH. split.
      * intros H. constructor; assumption.
      * intros H. inversion H; subst. assumption.
Qed.

Section QueueFacts.
Context (rt : Runtime).

Lemma validate_all_suffix emails api_key net tags evs net' :
  validate_all rt emails api_key net = Some (tags, evs, net') ->
  exists used, net = used ++ net'.
Proof.
  revert net tags evs net'.
  induction emails as [|email emails IH]; simpl; intros net tags evs net'.
  - intros [= _ _ <-]. exists []. reflexivity.
  - destruct (validate_email rt email api_key net) as [[[tag e1] n1]|] eqn:E1;
      simpl; [|discriminate].
    destruct (validate_all rt emails api_key n1) as [[[tags1 e2] n2]|] eqn:E2;
      simpl; [|discriminate].
    intros [= _ _ <-].
    destruct (validate_email_consumes rt _ _ _ _ _ _ E1) as [u1 [-> _]].
    destruct (IH _ _ _ _ E2) as [u2 ->].
    exists (u1 ++ u2). rewrite app_assoc. reflexivity.
Qed.

Lemma process_csv_suffix df api_key net res evs net' :
  process_csv rt df api_key net = Some (res, evs, net') ->
  exists used, net = used ++ net'.
Proof.
  unfold process_csv.
  destruct (clean_rows rt (columns df) (rows df) []) as [[names invalid]|];
    simpl.
  - destruct (column _ (str "Email")) as [emails|]; simpl.
    + destruct (validate_all rt emails api_key net) as [[[tags e0] n0]|] eqn:E;
        simpl; [|discriminate].
      intros [= _ _ <-]. exact (validate_all_suffix _ _ _ _ _ _ E).
    + intros [= _ _ <-]. exists []. reflexivity.
  - intros [= _ _ <-]. exists []. reflexivity.
Qed.

(** One file: two files written when it succeeds, none when it
    fails; the answers left are a tail of those it was given. *)
Lemma process_csv_file_writes disk timestamp input_file api_key net
    res ws evs net' :
  process_csv_file rt disk timestamp input_file api_key net
  = Some (res, ws, evs, net') ->
  length ws = (if succeeded res then 2 else 0)%nat
  /\ exists used, net = used ++ net'.
Proof.
  unfold process_csv_file.
  destruct (read_csv disk input_file) as [df|].
  - destruct (process_csv rt df api_key net) as [[[r e0] n0]|] eqn:E; simpl;
      [|discriminate].
    destruct (process_csv_suffix _ _ _ _ _ _ E) as [used Hu].
    destruct r as [[out report]|]; intros [= <- <- _ <-];
      (split; [reflexivity | exists used; exact Hu]).
  - intros [= <- <- _ <-]. split; [reflexivity | exists []; reflexivity].
Qed.

End QueueFacts.

(** X20.  The loop over the queue gives every file its turn: a run
    that comes to its end has one result per file of the queue, failures
    included, has written two files for each file that succeeded and none
    for one that failed, and has taken the answers of the network from the
    head of those it was given. *)
Theorem queue_processes_every_file (rt : Runtime) (disk : Disk)
    (clock : nat -> pystr) (position : nat) (files : list pystr)
    (api_key : pystr) (net : list reply) results ws evs net' :
  process_queue rt disk clock position files api_key net
  = Some (results, ws, evs, net') ->
  length results = length files
  /\ length ws = (2 * length (List.filter succeeded results))%nat
  /\ exists used, net = used ++ net'.
Proof.
  revert position net results ws evs net'.
  induction files as [|f files IH]; simpl;
    intros position net results ws evs net'.
  - intros [= <- <- _ <-]. split; [reflexivity|]. split; [reflexivity|].
    exists []. reflexivity.
  - destruct (process_csv_file rt disk (clock position) f api_key net)
      as [[[[r w1] e1] n1]|] eqn:E1; simpl; [|discriminate].
    destruct (process_queue rt disk clock (S position) files api_key n1)
      as [[[[rs w2] e2] n2]|] eqn:E2; simpl; [|discriminate].
    intros [= <- <- _ <-].
    destruct (process_csv_file_writes rt _ _ _ _ _ _ _ _ _ E1)
      as [Hw [u1 ->]].
    destruct (IH _ _ _ _ _ _ E2) as [Hl [Hws [u2 ->]]].
    split; [simpl; rewrite Hl; reflexivity|]. split.
    + rewrite length_app, Hw, Hws. simpl.
      destruct (succeeded r); simpl; lia.
    + exists (u1 ++ u2). rewrite app_assoc. reflexivity.
Qed.

Lemma queue_processes_every_file_witness :
  length [Raise ValueError;
          Ok (str "leads_cleaned_20250101_120000.csv",
              str "leads_report_20250101_120000.txt")]
  = length [str "/home/u/Downloads/broken.csv";
            str "/home/u/Downloads/leads.csv"]
  /\ length [WriteCsv
               (str "/home/u/Downloads/leads_cleaned_20250101_120000.csv")
               sample_output;
             WriteReport
               (str "/home/u/Downloads/leads_report_20250101_120000.txt")
               sample_report]
     = (2 * length (List.filter succeeded
                      [Raise ValueError;
                       Ok (str "leads_cleaned_20250101_120000.csv",
                           str "leads_report_20250101_120000.txt")]))%nat
  /\ exists used, sample_net ++ [Failure] = used ++ [Failure].
Proof.
  apply (queue_processes_every_file ascii_runtime sample_disk
           (fun _ => sample_stamp) 0
           [str "/home/u/Downloads/broken.csv";
            str "/home/u/Downloads/leads.csv"]
           sample_key (sample_net ++ [Failure]) _ _ sample_events).
  vm_compute. reflexivity.
Defined.

(** X21.  [main] of clay.py processes files only with a non-empty API
    key, and then a queue of as many files as the number typed, which is
    above 0; every file of the queue existed when it was asked for and
    its path ends with .csv. *)
Theorem clay_main_queue (rt : Runtime) (int_of_str : pystr -> option Z)
    (api_key : option pystr) (folder : pystr) (disk : Disk)
    (clock : nat -> pystr) (inputs : list pystr) (net : list reply)
    files results ws evs inputs_left net_left :
  clay_main rt int_of_str api_key folder disk clock inputs net
  = Some (Processed files results ws evs inputs_left net_left) ->
  (exists key, api_key = Some key /\ key <> [])
  /\ files <> []
  /\ Forall (fun f => path_exists disk f = true
                      /\ endswith f (str ".csv") = true) files
  /\ exists inputs1,
       ask_count int_of_str inputs = Some (Z.of_nat (length files), inputs1).
Proof.
  unfold clay_main. destruct api_key as [[|c key]|]; try discriminate.
  destruct (ask_count int_of_str inputs) as [[n inputs1]|] eqn:Ec; simpl;
    [|discriminate].
  destruct (ask_files disk folder (Z.to_nat n) inputs1) as [[fs inputs2]|]
    eqn:Ef; simpl; [|discriminate].
  destruct (process_queue rt disk clock 0 fs (c :: key) net)
    as [[[[rs w] e] n']|]; simpl; [|discriminate].
  intros [= <- _ _ _ _ _].
  pose proof (ask_count_positive _ _ _ _ Ec) as Hn.
  destruct (ask_files_exist _ _ _ _ _ _ Ef) as [Hl Hf].
  split; [exists (c :: key); split; [reflexivity | discriminate]|].
  split; [intros ->; simpl in Hl; lia|]. split; [exact Hf|].
  exists inputs1. rewrite Hl, Z2Nat.id by lia. reflexivity.
Qed.

Lemma clay_main_queue_witness :
  (exists key, Some sample_key = Some key /\ key <> [])
  /\ [str "/home/u/Downloads/broken.csv"; str "/home/u/Downloads/leads.csv"]
     <> []
  /\ Forall (fun f => path_exists sample_disk f = true
                      /\ endswith f (str ".csv") = true)
            [str "/home/u/Downloads/broken.csv";
             str "/home/u/Downloads/leads.csv"]
  /\ exists inputs1,
       ask_count sample_int
         [str "two"; str "0"; str "2"; str "broken"; str "lead";
          str "leads.csv"]
       = Some (Z.of_nat
                 (length [str "/home/u/Downloads/broken.csv";
                          str "/home/u/Downloads/leads.csv"]), inputs1).
Proof.
  apply (clay_main_queue ascii_runtime sample_int (Some sample_key)
           sample_folder sample_disk (fun _ => sample_stamp)
           [str "two"; str "0"; str "2"; str "broken"; str "lead";
            str "leads.csv"]
           sample_net
           [str "/home/u/Downloads/broken.csv";
            str "/home/u/Downloads/leads.csv"]
           [Raise ValueError;
            Ok (str "leads_cleaned_20250101_120000.csv",
                str "leads_report_20250101_120000.txt")]
           [WriteCsv
              (str "/home/u/Downloads/leads_cleaned_20250101_120000.csv")
              sample_output;
            WriteReport
              (str "/home/u/Downloads/leads_report_20250101_120000.txt")
              sample_report]
           sample_events [] []).
  vm_compute. reflexivity.
Defined.

(** X22.  [main] of dedupe.py ends at once, before it asks for
    anything, exactly when the master file is not in the Downloads folder
    under its fixed name. *)
Theorem dedupe_main_needs_master (folder : pystr) (disk : Disk)
    (timestamp : pystr) (inputs : list pystr) :
  dedupe_main folder disk timestamp inputs = Some NoMaster
  <-> path_exists disk (join folder master_name) = false.
Proof.
  unfold dedupe_main.
  destruct (path_exists disk (join folder master_name)).
  - split; [|discriminate].
    destruct (ask_file disk folder inputs) as [[f rest]|]; simpl;
      [|discriminate].
    destruct (dedupe_csv_file disk timestamp _ f). discriminate.
  - split; reflexivity.
Qed.

Section MoreRowFacts.
Context (rt : Runtime).

(** The names of a cleaned table, row by row. *)
Lemma clean_rows_names cols (i : nat) rws invalid names invalid' :
  index_of (str "First Name") cols = Some i ->
  clean_rows rt cols rws invalid = Ok (names, invalid') ->
  Forall2 (fun (row : list pyval) name =>
             exists flag,
               clean_first_name rt (default NaN (row !! i)) = Ok (name, flag))
          rws names.
Proof.
  intros Hi. revert invalid names invalid'.
  induction rws as [|row rws IH]; simpl; intros invalid names invalid'.
  - intros [= <- _]. constructor.
  - unfold clean_and_track, row_get. rewrite Hi. simpl.
    destruct (clean_first_name rt (default NaN (row !! i)))
      as [[name flag]|] eqn:Ec; simpl; [|discriminate].
    assert (Hrest : forall inv1,
              (let (names0, inv2) := (name, inv1) in
               clean_rows rt cols rws inv2
               ≫= λ '(names1, inv3), Ok (names0 :: names1, inv3))
              = Ok (names, invalid') ->
              Forall2 (fun (row : list pyval) name =>
                         exists flag,
                           clean_first_name rt (default NaN (row !! i))
                           = Ok (name, flag))
                      (row :: rws) names).
    { intros inv1. simpl.
      destruct (clean_rows rt cols rws inv1) as [[names1 inv3]|] eqn:Er;
        simpl; [|discriminate].
      intros [= <- _]. constructor; [exists flag; exact Ec|].
      exact (IH _ _ _ Er). }
    destruct flag; simpl.
    + apply Hrest.
    + destruct (index_of (str "Email") cols); simpl; [|discriminate].
      apply Hrest.
Qed.

Lemma write_cells_pairs (i : nat) (rws : list (list pyval)) vals
    (P : list pyval -> pyval -> Prop) row' :
  Forall2 P rws vals ->
  In row' (write_cells (Some i) rws vals) ->
  exists row v, In row rws /\ P row v /\ row' = <[i := v]> row.
Proof.
  induction 1 as [|r v rws vals Hp _ IH]; simpl; [contradiction|].
  intros [H|H].
  - exists r, v. split; [left; reflexivity|]. split; [exact Hp|].
    symmetry. exact H.
  - destruct (IH H) as [row [w [Hin [Hw E]]]]. exists row, w.
    split; [right; exact Hin|]. split; assumption.
Qed.

End MoreRowFacts.

(** X23.  The first name of every row the pipeline writes is the
    cleaned form of the first name of a row it read: the value
    [clean_first_name] gives for it. *)
Theorem first_names_are_cleaned (rt : Runtime) (df : DataFrame)
    (api_key : pystr) (net : list reply) out report evs net' (i : nat) :
  rectangular df ->
  index_of (str "is_valid_email") (columns df) = None ->
  index_of (str "First Name") (columns df) = Some i ->
  process_csv rt df api_key net = Some (Ok (out, report), evs, net') ->
  Forall (fun row' : list pyval =>
            exists row name flag,
              In row (rows df)
              /\ clean_first_name rt (default NaN (row !! i)) = Ok (name, flag)
              /\ row' !! i = Some name)
         (rows out).
Proof.
  intros Hrect Htag Hi H.
  destruct (process_csv_output rt _ _ _ _ _ _ _ Hrect Htag H)
    as [names [mask [Hc ->]]].
  unfold set_column. rewrite Hi. simpl.
  apply List.Forall_forall. intros row' Hin. apply select_elem in Hin.
  pose proof (clean_rows_names rt _ i _ _ _ _ Hi Hc) as Hn.
  destruct (write_cells_pairs i _ _ _ _ Hn Hin)
    as [row [name [Hrow [[flag Hf] ->]]]].
  exists row, name, flag. split; [exact Hrow|]. split; [exact Hf|].
  apply list_lookup_insert_eq.
  unfold rectangular in Hrect. rewrite List.Forall_forall in Hrect.
  rewrite (Hrect row Hrow). apply (index_of_lt _ _ _ Hi).
Qed.

Lemma first_names_are_cleaned_witness :
  Forall (fun row' : list pyval =>
            exists row name flag,
              In row (rows wide_table)
              /\ clean_first_name ascii_runtime (default NaN (row !! 0%nat))
                 = Ok (name, flag)
              /\ row' !! 0%nat = Some name)
         (rows wide_output).
Proof.
  apply (first_names_are_cleaned ascii_runtime wide_table sample_key
           [Answer quota_exceeded; Answer good_response]
           wide_output wide_report
           [Get (validation_url ascii_runtime (PStr (str "a@x.com"))
                   sample_key);
            Get (validation_url ascii_runtime (PStr (str "m@x.com"))
                   sample_key)] [] 0).
  - repeat constructor.
  - reflexivity.
  - reflexivity.
  - vm_compute. reflexivity.
Defined.


